(** * Equity-Valuator-Engine: valuation formulas and their specification

    A shallow embedding of the pure valuation functions of the repository
    (DCF_Model.py, Comps_Model.py, Models.py) and the proofs that settle the
    statements of the specification about them.

    Numbers.  The Python code computes on [float] (and [int]) values.  They
    are modelled here as exact rationals, [Qc]: every arithmetic operator is
    the field operation, and the only arithmetic failure is Python's
    [ZeroDivisionError].  Rounding, overflow and [nan] are outside that
    model; where a statement turns on them, the code is evaluated on binary64
    numbers, in the module [B64].

    Failure.  A Python function either returns a value or raises; the
    functions below return a [result], and the order in which the source
    evaluates its sub-expressions is the order of the binds. *)

From Stdlib Require Import ZArith QArith Qcanon Lia.
From Stdlib Require Import Sorting.Permutation Sorting.Sorted.
From Stdlib Require SpecFloat.
From stdpp Require Import base numbers list sorting strings gmap.

Local Open Scope Z_scope.
Local Open Scope Qc_scope.

(** ** Python values and operators *)

Module Py.

(** The exceptions the modelled code can raise.  [LibraryError] stands for
    any exception raised inside a call of an external library. *)
Inductive exn : Set :=
  | ZeroDivisionError
  | IndexError
  | LibraryError.

Inductive result (A : Type) : Type :=
  | Ok (a : A)
  | Raise (e : exn).
Arguments Ok {A} a.
Arguments Raise {A} e.

#[global] Instance exn_eq_dec : EqDecision exn.
Proof. solve_decision. Defined.

#[global] Instance result_eq_dec {A : Type} `{EqDecision A} : EqDecision (result A).
Proof. solve_decision. Defined.

Definition bind {A B : Type} (m : result A) (k : A -> result B) : result B :=
  match m with
  | Ok a => k a
  | Raise e => Raise e
  end.

Notation "'let!' x ':=' m 'in' k" := (bind m (fun x => k))
  (at level 10, x name, m at level 100, k at level 200).

(** A decimal literal: [n # d] as a canonical rational. *)
Definition lit (n : Z) (d : positive) : Qc := Q2Qc (n # d).

(** A Python [int] used in float arithmetic. *)
Definition of_int (n : Z) : Qc := Qc_of_Z n.

(** [a / b] on floats: raises when the divisor is zero. *)
Definition py_div (a b : Qc) : result Qc :=
  if decide (b = 0) then Raise ZeroDivisionError else Ok (a / b).

(** [x ** k] for an integer exponent [k]: a negative exponent is the
    reciprocal of the positive power, and raises on a zero base. *)
Definition py_pow (x : Qc) (k : Z) : result Qc :=
  if (0 <=? k)%Z then Ok (x ^ Z.to_nat k)
  else if decide (x = 0) then Raise ZeroDivisionError
  else Ok (/ (x ^ Z.to_nat (- k))).

(** [max(a, b)]: the first argument unless the second is strictly larger. *)
Definition py_max (a b : Qc) : Qc :=
  if decide (a < b) then b else a.

(** [range(a, b)]: the integers from [a] up to [b - 1]; empty when [b <= a]. *)
Definition py_range (a b : Z) : list Z :=
  map (fun k => (a + Z.of_nat k)%Z) (seq 0 (Z.to_nat (b - a))).

(** [enumerate(l)]: the elements paired with their index, from 0. *)
Definition enumerate {A : Type} (l : list A) : list (Z * A) :=
  combine (map Z.of_nat (seq 0 (length l))) l.

(** [l[i]]: a negative index counts from the end; [IndexError] outside
    [-len(l) <= i < len(l)]. *)
Definition py_index {A : Type} (l : list A) (i : Z) : result A :=
  let n := Z.of_nat (length l) in
  let j := if (i <? 0)%Z then (i + n)%Z else i in
  if ((0 <=? j) && (j <? n))%Z
  then match l !! Z.to_nat j with
       | Some x => Ok x
       | None => Raise IndexError
       end
  else Raise IndexError.

(** [sum(l)]: starts from 0 and adds from the left. *)
Definition py_sum (l : list Qc) : Qc := fold_left Qcplus l 0.

(** [[f(x) for x in l]] where [f] may raise: elements are evaluated from
    the left and the first exception ends the comprehension. *)
Fixpoint comprehension {A B : Type} (f : A -> result B) (l : list A)
  : result (list B) :=
  match l with
  | [] => Ok []
  | x :: l' =>
      let! y := f x in
      let! ys := comprehension f l' in
      Ok (y :: ys)
  end.

(** [[x] * k] for an integer [k]: [k] copies, none when [k <= 0]. *)
Definition py_repeat {A : Type} (x : A) (k : Z) : list A :=
  replicate (Z.to_nat k) x.

End Py.

Import Py.

(** ** DCF_Model.py *)

Module DCF_Model.

Definition calculate_fcf (ebit tax_rate da capex wc : Qc) : Qc :=
  let nopat := ebit * (1 - tax_rate) in
  nopat + da - capex - wc.

Definition project_fcf (initial_fcf growth_rate : Qc) (years : Z)
  : result (list Qc) :=
  comprehension
    (fun i => let! p := py_pow (1 + growth_rate) i in Ok (initial_fcf * p))
    (py_range 1 (years + 1)).

Definition calculate_terminal_value (last_fcf perpetual_growth_rate wacc : Qc)
  : result Qc :=
  py_div (last_fcf * (1 + perpetual_growth_rate)) (wacc - perpetual_growth_rate).

(** numpy arithmetic does not raise on a zero divisor: the quotient is
    [inf], [-inf] or [nan].  A numpy float is modelled as [Some q] when it
    is the finite value [q] and as [None] when it is not finite. *)
Definition np_div (a b : Qc) : option Qc :=
  if decide (b = 0) then None else Some (a / b).

Definition np_sum (l : list (option Qc)) : option Qc :=
  foldl (fun acc x => a ← acc; v ← x; Some (a + v)) (Some 0) l.

(** [numpy_financial.npv(rate, values)], an external library function,
    modelled from its definition in numpy_financial:
    [(values / (1 + rate) ** np.arange(0, len(values))).sum()],
    that is, the sum over [t = 0 .. len(values) - 1] of
    [values[t] / (1 + rate) ** t]. *)
Definition npf_npv (rate : Qc) (values : list Qc) : option Qc :=
  let timestep_array := seq 0 (length values) in
  np_sum (zip_with (fun v t => np_div v ((1 + rate) ^ t)) values timestep_array).

Definition discount_cash_flows (cash_flows : list Qc) (wacc : Qc) : option Qc :=
  npf_npv wacc cash_flows.

Definition calculate_dcf
    (ebit tax_rate da capex wc growth_rate : Qc) (projection_years : Z)
    (perpetual_growth_rate wacc : Qc) : result (Qc * list Qc * Qc) :=
  let base_fcf := calculate_fcf ebit tax_rate da capex wc in
  let! fcf_projections := project_fcf base_fcf growth_rate projection_years in
  let! last_fcf := py_index fcf_projections (-1) in
  let! terminal_value :=
    calculate_terminal_value last_fcf perpetual_growth_rate wacc in
  let! discounted_fcf :=
    comprehension
      (fun '(i, fcf) => let! d := py_pow (1 + wacc) (i + 1) in py_div fcf d)
      (enumerate fcf_projections) in
  let! d := py_pow (1 + wacc) (projection_years + 1) in
  let! discounted_terminal := py_div terminal_value d in
  let total_value := py_sum discounted_fcf + discounted_terminal in
  Ok (total_value, fcf_projections, terminal_value).

End DCF_Model.

Import DCF_Model.

(** ** Comps_Model.py *)

Module Comps_Model.

(** A peer is a dict from metric name to a multiple or to [None]; the
    entry of a key is [Some (Some v)] for a number, [Some None] for a null
    entry, and the key is absent otherwise.  The identifying label of a peer
    (its "ticker" string) is not a metric and is left out of the map. *)
Abbreviation peer := (gmap string (option Qc)).

(** [peer.get(metric)]: [None] for an absent key as for a null entry. *)
Definition dict_get (p : peer) (metric : string) : option Qc :=
  match p !! metric with
  | Some v => v
  | None => None
  end.

Definition compute_median_multiple (peers : list peer) (metric : string)
  : result (option Qc) :=
  (* [peer[metric] for peer in peers if peer.get(metric) is not None] *)
  let multiples := omap (fun p => dict_get p metric) peers in
  match multiples with
  | [] => Ok None
  | _ =>
      (* multiples.sort(): ascending; on the rationals, a total order with
         Leibniz equality, every sort returns the same list *)
      let multiples := merge_sort Qcle multiples in
      let n := Z.of_nat (length multiples) in
      let mid := (n `div` 2)%Z in
      if decide ((n `mod` 2)%Z = 0%Z)
      then
        let! a := py_index multiples (mid - 1) in
        let! b := py_index multiples mid in
        Ok (Some ((a + b) / lit 2 1))
      else
        let! m := py_index multiples mid in
        Ok (Some m)
  end.

Definition apply_comps (target_metric_value median_multiple : Qc) : Qc :=
  target_metric_value * median_multiple.

End Comps_Model.

Import Comps_Model.

(** ** Models.py *)

Module Models.

Record debt_record : Set := {
  year : Z;
  interest_expense : Qc;
  principal_payment : Qc;
  remaining_debt : Qc
}.

(** One turn of the repayment loop, on the pair of the loop's variables
    [outstanding_debt] and [debt_schedule]. *)
Definition repay (interest_rate annual_principal_payment : Qc)
    (st : Qc * list debt_record) (yr : Z) : Qc * list debt_record :=
  let interest := st.1 * interest_rate in
  let outstanding_debt := st.1 - annual_principal_payment in
  (outstanding_debt,
   st.2 ++ [ {| year := yr;
                interest_expense := interest;
                principal_payment := annual_principal_payment;
                remaining_debt := py_max outstanding_debt 0 |} ]).

(** The local variables of [run_lbo_model] when it reaches the call of
    [npf.irr]. *)
Record lbo_state : Set := {
  debt_schedule : list debt_record;
  outstanding_debt : Qc;
  exit_enterprise_value : Qc;
  exit_equity_value : Qc;
  equity_cash_flows : list Qc
}.

(** The body of [run_lbo_model] up to the call of [npf.irr]. *)
Definition lbo_before_irr
    (purchase_price debt_ratio initial_ebitda ebitda_growth_rate
     exit_multiple : Qc) (years : Z) (interest_rate : Qc) : result lbo_state :=
  let equity_investment := purchase_price * (1 - debt_ratio) in
  let initial_debt := purchase_price * debt_ratio in
  let! annual_principal_payment := py_div initial_debt (of_int years) in
  let st :=
    foldl (repay interest_rate annual_principal_payment)
          (initial_debt, []) (py_range 1 (years + 1)) in
  let! growth := py_pow (1 + ebitda_growth_rate) years in
  let final_ebitda := initial_ebitda * growth in
  let exit_ev := exit_multiple * final_ebitda in
  let exit_eq := exit_ev - py_max st.1 0 in
  Ok {| debt_schedule := st.2;
        outstanding_debt := st.1;
        exit_enterprise_value := exit_ev;
        exit_equity_value := exit_eq;
        equity_cash_flows :=
          [- equity_investment] ++ py_repeat 0 (years - 1) ++ [exit_eq] |}.

Section Irr.

(** [numpy_financial.irr], an external root finder: any function from the
    cash-flow vector to a rate (of any type) that may also raise. *)
Context {irr_value : Type}.
Variable npf_irr : list Qc -> result irr_value.

Definition run_lbo_model
    (purchase_price debt_ratio initial_ebitda ebitda_growth_rate
     exit_multiple : Qc) (years : Z) (interest_rate : Qc)
  : result (list Qc * irr_value * Qc) :=
  let! s := lbo_before_irr purchase_price debt_ratio initial_ebitda
              ebitda_growth_rate exit_multiple years interest_rate in
  let! irr := npf_irr (equity_cash_flows s) in
  Ok (equity_cash_flows s, irr, exit_equity_value s).

End Irr.

End Models.

Import Models.

(** ** The formulas of the specification *)

Module Spec.

(** The sum of [f i] over [i = 1 .. n]. *)
Definition sum_1_to (n : nat) (f : nat -> Qc) : Qc :=
  foldr Qcplus 0 (map f (seq 1 n)).

(** The [i]-th element of a sequence numbered from 1. *)
Definition item (l : list Qc) (i : nat) : Qc := nth (i - 1) l 0.

(** Present value of [cf_1 .. cf_m] with flows beginning at period 1: the
    sum over [i = 1 .. m] of [cf_i / (1 + wacc)^i]. *)
Definition present_value_from_period_1 (cash_flows : list Qc) (wacc : Qc)
  : Qc :=
  sum_1_to (length cash_flows) (fun i => item cash_flows i / (1 + wacc) ^ i).

(** The formulas of section 4.1 applied in sequence, for [n] projection
    years: base FCF, the projection, the terminal value off year [n], and
    the enterprise value as the discounted years plus the terminal value
    discounted at year [n + 1]. *)
Definition dcf_formulas
    (ebit tax_rate da capex wc g : Qc) (n : nat) (g_perp wacc : Qc)
  : Qc * list Qc * Qc :=
  let fcf0 := ebit * (1 - tax_rate) + da - capex - wc in
  let projection := map (fun i => fcf0 * (1 + g) ^ i) (seq 1 n) in
  let terminal := item projection n * (1 + g_perp) / (wacc - g_perp) in
  let enterprise :=
    sum_1_to n (fun i => item projection i / (1 + wacc) ^ i)
    + terminal / (1 + wacc) ^ (n + 1) in
  (enterprise, projection, terminal).

(** The values a peer list holds for a metric, in the order of the peers:
    a peer whose entry is missing or null contributes nothing. *)
Inductive metric_values (metric : string)
  : list (gmap string (option Qc)) -> list Qc -> Prop :=
  | mv_nil : metric_values metric [] []
  | mv_missing p ps vs :
      p !! metric = None ->
      metric_values metric ps vs -> metric_values metric (p :: ps) vs
  | mv_null p ps vs :
      p !! metric = Some None ->
      metric_values metric ps vs -> metric_values metric (p :: ps) vs
  | mv_value p ps v vs :
      p !! metric = Some (Some v) ->
      metric_values metric ps vs -> metric_values metric (p :: ps) (v :: vs).

End Spec.

Import Spec.

(** ** Auxiliary sums *)

(** [v_0 / r^k + v_1 / r^(k+1) + ...], the terms of a discounted sum whose
    first flow falls at period [k], and their total. *)
Fixpoint discounted (r : Qc) (k : nat) (l : list Qc) : list Qc :=
  match l with
  | [] => []
  | v :: l' => v / r ^ k :: discounted r (S k) l'
  end.

Fixpoint discounted_sum (r : Qc) (k : nat) (l : list Qc) : Qc :=
  match l with
  | [] => 0
  | v :: l' => v / r ^ k + discounted_sum r (S k) l'
  end.

(** ** Excel.py *)

Module Excel.

(** What a cell receives: a string, a float or an [int]. *)
Inductive cell_value : Set :=
  | Text (s : string)
  | Number (q : Qc)
  | Integer (z : Z).

(** The two ways the source addresses a cell: by name (["A1"]) and by
    zero-based row and column. *)
Inductive cell_ref : Set :=
  | A1 (name : string)
  | RowCol (row col : Z).

(** The calls [export_dcf_results] makes on the file system and on the
    xlsxwriter workbook, external collaborators both. *)
Inductive event : Set :=
  | Makedirs (path : string)
  | Workbook (filename : string)
  | AddWorksheet (name : string)
  | Write (ref : cell_ref) (v : cell_value)
  | Close.

(** [enumerate(l, start=a)]. *)
Definition enumerate_from {A : Type} (a : Z) (l : list A) : list (Z * A) :=
  combine (map (fun k => (a + Z.of_nat k)%Z) (seq 0 (length l))) l.

Section ExportCalls.

(** [os.path.dirname], left abstract. *)
Variable dirname : string -> string.

(** The calls of [export_dcf_results], in order, on a run in which none of
    them raises. *)
Definition export_dcf_results (filename : string) (fcf_projections : list Qc)
    (terminal_value dcf_enterprise_value : Qc) : list event :=
  [ Makedirs (dirname filename);
    Workbook filename;
    AddWorksheet "DCF Results";
    Write (A1 "A1") (Text "Year");
    Write (A1 "B1") (Text "Projected FCF") ]
  ++ flat_map
       (fun '(i, fcf) =>
          [ Write (RowCol i 0) (Integer i); Write (RowCol i 1) (Number fcf) ])
       (enumerate_from 1 fcf_projections)
  ++ (let start_row := (Z.of_nat (length fcf_projections) + 2)%Z in
      [ Write (RowCol start_row 0) (Text "Terminal Value");
        Write (RowCol start_row 1) (Number terminal_value);
        Write (RowCol (start_row + 1) 0) (Text "DCF Enterprise Value");
        Write (RowCol (start_row + 1) 1) (Number dcf_enterprise_value);
        Close ]).

End ExportCalls.

(** The cells addressed by row and column in a run, in the order of the
    writes. *)
Definition rowcol_writes (tr : list event) : list (Z * Z * cell_value) :=
  omap (fun ev => match ev with
                  | Write (RowCol r c) v => Some (r, c, v)
                  | _ => None
                  end) tr.

End Excel.

Import Excel.

(** ** The callers of the valuation functions *)

Module Callers.

(** The outcome of the two lines that every caller of the comparables
    model runs (Comps_Model.py, main block; Dashboard.py, "Calculate Comps"):
    [median = compute_median_multiple(peers, metric)] and then
    [apply_comps(target, median)].  The product of a float and [None]
    raises [TypeError]. *)
Inductive comps_outcome : Set :=
  | Estimate (median enterprise_value : Qc)
  | TypeError
  | Raised (e : exn).

Definition comps_valuation (peers : list peer) (metric : string)
    (target_metric_value : Qc) : comps_outcome :=
  match compute_median_multiple peers metric with
  | Raise e => Raised e
  | Ok None => TypeError
  | Ok (Some median) => Estimate median (apply_comps target_metric_value median)
  end.

(** The static peer group of Dashboard.py; the "ticker" labels are left
    out, as in [peer]. *)
Definition dashboard_peers : list peer :=
  [ {[ "EV/EBITDA"%string := Some (lit 18 1) ]};
    {[ "EV/EBITDA"%string := Some (lit 20 1) ]};
    {[ "EV/EBITDA"%string := Some (lit 19 1) ]};
    {[ "EV/EBITDA"%string := Some (lit 22 1) ]};
    {[ "EV/EBITDA"%string := Some (lit 16 1) ]} ].


End Callers.

Import Callers.

(** ** DCF_Model.py on binary64 numbers *)

(** The functions of DCF_Model.py once more, on IEEE 754 binary64 numbers
    (precision 53, largest exponent 1024): [+], [-], [*] and [/] are the
    correctly rounded operations, and [/] raises on a zero divisor.  [x ** i]
    with an integer [i >= 0] is C's [pow], taken as the exact power rounded
    once; CPython raises [OverflowError] when it overflows and returns the
    zero when it underflows. *)
Module B64.

Import SpecFloat.

Definition prec : Z := 53.
Definition emax : Z := 1024.

(** [m * 2^e], rounded to nearest even. *)
Definition of_scaled (m e : Z) : spec_float :=
  binary_normalize prec emax m e false.

(** An [int] used in float arithmetic, and the literal [1e200] as well. *)
Definition of_int (n : Z) : spec_float := of_scaled n 0.

(** The decimal literal [n / d], for [n] and [d] below [2^53]: the nearest
    binary64 number. *)
Definition decimal (n d : Z) : spec_float :=
  SFdiv prec emax (of_int n) (of_int d).

Definition add : spec_float -> spec_float -> spec_float := SFadd prec emax.
Definition sub : spec_float -> spec_float -> spec_float := SFsub prec emax.
Definition mul : spec_float -> spec_float -> spec_float := SFmul prec emax.


Inductive error : Set :=
  | Overflow
  | ZeroDivision
  | Index.

Inductive outcome (A : Type) : Type :=
  | Return (a : A)
  | Throw (e : error).
Arguments Return {A} a.
Arguments Throw {A} e.

Definition bind {A B : Type} (m : outcome A) (k : A -> outcome B)
  : outcome B :=
  match m with
  | Return a => k a
  | Throw e => Throw e
  end.

Notation "'let?' x ':=' m 'in' k" := (bind m (fun x => k))
  (at level 10, x name, m at level 100, k at level 200).

Definition div (a b : spec_float) : outcome spec_float :=
  match b with
  | S754_zero _ => Throw ZeroDivision
  | _ => Return (SFdiv prec emax a b)
  end.

Definition pow (x : spec_float) (k : nat) : outcome spec_float :=
  match k with
  | O => Return (of_int 1)
  | _ =>
      let negative (s : bool) : bool := andb s (Nat.odd k) in
      match x with
      | S754_zero s => Return (S754_zero (negative s))
      | S754_infinity s => Return (S754_infinity (negative s))
      | S754_nan => Return S754_nan
      | S754_finite s m e =>
          let r :=
            binary_normalize prec emax
              (cond_Zopp (negative s) (Z.pos m ^ Z.of_nat k))
              (e * Z.of_nat k) (negative s) in
          match r with
          | S754_infinity _ => Throw Overflow
          | _ => Return r
          end
      end
  end.

Fixpoint comprehension {A B : Type} (f : A -> outcome B) (l : list A)
  : outcome (list B) :=
  match l with
  | [] => Return []
  | x :: l' =>
      let? y := f x in
      let? ys := comprehension f l' in
      Return (y :: ys)
  end.

Definition calculate_fcf (ebit tax_rate da capex wc : spec_float)
  : spec_float :=
  let nopat := mul ebit (sub (of_int 1) tax_rate) in
  sub (sub (add nopat da) capex) wc.

(** The exponents are the elements of [range(1, years + 1)], all positive. *)
Definition project_fcf (initial_fcf growth_rate : spec_float) (years : Z)
  : outcome (list spec_float) :=
  comprehension
    (fun i =>
       let? p := pow (add (of_int 1) growth_rate) (Z.to_nat i) in
       Return (mul initial_fcf p))
    (py_range 1 (years + 1)).

Definition calculate_terminal_value
    (last_fcf perpetual_growth_rate wacc : spec_float) : outcome spec_float :=
  div (mul last_fcf (add (of_int 1) perpetual_growth_rate))
      (sub wacc perpetual_growth_rate).

(** The body of [calculate_dcf] up to its last line but one: the
    projection, the terminal value, the discounted years and the discounted
    terminal value, before they are added up. *)
Definition calculate_dcf_terms
    (ebit tax_rate da capex wc growth_rate : spec_float)
    (projection_years : Z) (perpetual_growth_rate wacc : spec_float)
  : outcome (list spec_float * spec_float * list spec_float * spec_float) :=
  let base_fcf := calculate_fcf ebit tax_rate da capex wc in
  let? fcf_projections := project_fcf base_fcf growth_rate projection_years in
  let? last_fcf :=
    match last fcf_projections with
    | Some x => Return x
    | None => Throw Index
    end in
  let? terminal_value :=
    calculate_terminal_value last_fcf perpetual_growth_rate wacc in
  let? discounted_fcf :=
    comprehension
      (fun '(i, fcf) =>
         let? d := pow (add (of_int 1) wacc) (Z.to_nat (i + 1)) in
         div fcf d)
      (enumerate fcf_projections) in
  let? d := pow (add (of_int 1) wacc) (Z.to_nat (projection_years + 1)) in
  let? discounted_terminal := div terminal_value d in
  Return (fcf_projections, terminal_value, discounted_fcf,
          discounted_terminal).

End B64.

(** * Properties *)

(** ** Python operators that do not raise *)

Section PyFacts.

Lemma py_pow_nonneg (x : Qc) (k : Z) :
  (0 <= k)%Z -> py_pow x k = Ok (x ^ Z.to_nat k).
Proof.
  intros Hk. unfold py_pow.
  destruct (Z.leb_spec 0 k) as [_|Hlt]; [reflexivity | lia].
Qed.

Lemma py_div_nonzero (a b : Qc) : b <> 0 -> py_div a b = Ok (a / b).
Proof. intros Hb. unfold py_div. destruct (decide (b = 0)); congruence. Qed.

Lemma py_div_zero (a : Qc) : py_div a 0 = Raise ZeroDivisionError.
Proof. unfold py_div. destruct (decide (0 = 0)); congruence. Qed.

Lemma py_max_lower (a b : Qc) : b <= py_max a b.
Proof.
  unfold py_max. destruct (decide (a < b)) as [_|Hn].
  - apply Qcle_refl.
  - apply Qcnot_lt_le, Hn.
Qed.

Lemma py_max_diag (a : Qc) : py_max a a = a.
Proof. unfold py_max. destruct (decide (a < a)); reflexivity. Qed.

Lemma py_range_from_1 (n : Z) :
  py_range 1 (n + 1) = map (fun k => Z.of_nat (S k)) (seq 0 (Z.to_nat n)).
Proof.
  unfold py_range. replace (n + 1 - 1)%Z with n by lia.
  apply map_ext. intros k. lia.
Qed.

(** A comprehension whose body returns on every element is a [map]. *)
Lemma comprehension_total {A B : Type} (f : A -> result B) (g : A -> B)
    (l : list A) :
  Forall (fun x => f x = Ok (g x)) l -> comprehension f l = Ok (map g l).
Proof.
  induction 1 as [|x l Hx _ IH]; simpl.
  - reflexivity.
  - rewrite Hx, IH. reflexivity.
Qed.

(** The first element on which the body raises ends the comprehension. *)
Lemma comprehension_raise_head {A B : Type} (f : A -> result B) (x : A)
    (l : list A) (e : exn) :
  f x = Raise e -> comprehension f (x :: l) = Raise e.
Proof. intros Hx. simpl. rewrite Hx. reflexivity. Qed.

Lemma py_index_last {A : Type} (l : list A) (x : A) :
  py_index (l ++ [x]) (-1) = Ok x.
Proof.
  unfold py_index. rewrite length_app. simpl length.
  destruct (Z.ltb_spec (-1) 0) as [_|?]; [|lia].
  replace (-1 + Z.of_nat (length l + 1))%Z with (Z.of_nat (length l)) by lia.
  destruct (Z.leb_spec 0 (Z.of_nat (length l))); [|lia].
  destruct (Z.ltb_spec (Z.of_nat (length l)) (Z.of_nat (length l + 1))); [|lia].
  simpl. rewrite Nat2Z.id.
  rewrite lookup_app_r by lia. rewrite Nat.sub_diag. reflexivity.
Qed.

Lemma py_index_nil {A : Type} (i : Z) : py_index (@nil A) i = Raise IndexError.
Proof.
  unfold py_index. simpl length.
  set (j := if (i <? 0)%Z then _ else _). clearbody j.
  destruct (Z.leb_spec 0 j), (Z.ltb_spec j (Z.of_nat 0)); simpl;
    try reflexivity; lia.
Qed.

Lemma py_index_nat {A : Type} (l : list A) (i : nat) (x : A) :
  l !! i = Some x -> py_index l (Z.of_nat i) = Ok x.
Proof.
  intros Hx. pose proof (lookup_lt_Some _ _ _ Hx) as Hlt.
  unfold py_index.
  destruct (Z.ltb_spec (Z.of_nat i) 0); [lia|].
  destruct (Z.leb_spec 0 (Z.of_nat i)); [|lia].
  destruct (Z.ltb_spec (Z.of_nat i) (Z.of_nat (length l))); [|lia].
  simpl. rewrite Nat2Z.id, Hx. reflexivity.
Qed.

End PyFacts.

(** ** Discounted cash flow *)

(** C8.  [calculate_fcf] returns [ebit*(1-tax_rate) + da - capex - wc] on
    all inputs, and [calculate_fcf(1000, 0.21, 100, 150, 50)] is [690]. *)
Theorem calculate_fcf_formula :
  (forall ebit tax_rate da capex wc : Qc,
     calculate_fcf ebit tax_rate da capex wc
     = ebit * (1 - tax_rate) + da - capex - wc)
  /\ calculate_fcf (of_int 1000) (lit 21 100) (of_int 100) (of_int 150)
       (of_int 50) = of_int 690.
Proof.
  split.
  - intros. reflexivity.
  - compute_done.
Qed.

(** The projection list in closed form. *)
Lemma project_fcf_closed_form (fcf0 g : Qc) (n : Z) :
  project_fcf fcf0 g n
  = Ok (map (fun i => fcf0 * (1 + g) ^ i) (seq 1 (Z.to_nat n))).
Proof.
  unfold project_fcf. rewrite py_range_from_1.
  rewrite <- seq_shift, map_map.
  rewrite (comprehension_total _ (fun i => fcf0 * (1 + g) ^ Z.to_nat i)).
  - rewrite map_map. f_equal. apply map_ext. intros k.
    rewrite Nat2Z.id. reflexivity.
  - apply Forall_forall. intros i Hi.
    apply list_elem_of_In, in_map_iff in Hi. destruct Hi as (k & <- & _).
    rewrite py_pow_nonneg by lia. reflexivity.
Qed.


(** In exact arithmetic the example holds as the specification writes
    it. *)
Lemma project_fcf_example_exact :
  project_fcf (of_int 100) (lit 5 100) 3
  = Ok [lit 105 1; lit 11025 100; lit 1157625 10000].
Proof. compute_done. Qed.




(** The terminal value is [last_fcf*(1+g)/(wacc-g)] whenever the divisor is
    not zero, also when it is negative. *)
Lemma calculate_terminal_value_defined (last_fcf g wacc : Qc) :
  wacc <> g ->
  calculate_terminal_value last_fcf g wacc
  = Ok (last_fcf * (1 + g) / (wacc - g)).
Proof.
  intros Hne. unfold calculate_terminal_value. apply py_div_nonzero.
  intros H0. apply Hne.
  replace wacc with (wacc - g + g) by ring. rewrite H0. ring.
Qed.

Lemma calculate_terminal_value_undefined (last_fcf g : Qc) :
  calculate_terminal_value last_fcf g g = Raise ZeroDivisionError.
Proof.
  unfold calculate_terminal_value.
  replace (g - g) with 0 by ring. apply py_div_zero.
Qed.

(** C4, as the specification states it, fails below the growth rate: with
    [wacc = 0.02 <= 0.08 = g] the function does not fail, it returns
    [100*1.08/(0.02-0.08) = -1800]. *)
Lemma calculate_terminal_value_returns_below_growth :
  lit 2 100 <= lit 8 100
  /\ calculate_terminal_value (of_int 100) (lit 8 100) (lit 2 100)
     = Ok (of_int (-1800)).
Proof. split; compute_done. Qed.

(** C4, amended.  [calculate_terminal_value] returns
    [last_fcf*(1+g)/(wacc-g)] whenever [wacc <> g], above the growth rate
    ([calculate_terminal_value(100, 0.02, 0.08)] is [1700]) and below it;
    it raises [ZeroDivisionError], with no guard of its own, exactly when
    [wacc = g]. *)
Theorem calculate_terminal_value_spec (last_fcf g wacc : Qc) :
  (wacc <> g ->
     calculate_terminal_value last_fcf g wacc
     = Ok (last_fcf * (1 + g) / (wacc - g)))
  /\ (wacc = g ->
        calculate_terminal_value last_fcf g wacc = Raise ZeroDivisionError)
  /\ calculate_terminal_value (of_int 100) (lit 2 100) (lit 8 100)
     = Ok (of_int 1700).
Proof.
  split; [|split].
  - apply calculate_terminal_value_defined.
  - intros ->. apply calculate_terminal_value_undefined.
  - compute_done.
Qed.

Lemma calculate_terminal_value_spec_witness :
  calculate_terminal_value (of_int 100) (lit 2 100) (lit 8 100)
  = Ok (of_int 100 * (1 + lit 2 100) / (lit 8 100 - lit 2 100)).
Proof.
  apply (calculate_terminal_value_spec (of_int 100) (lit 2 100) (lit 8 100)).
  vm_compute. discriminate.
Defined.

(** ** Discounted sums *)

Section Discounting.

Variable r : Qc.

Lemma Qcpower_nonzero (k : nat) : r <> 0 -> r ^ k <> 0.
Proof.
  intros Hr. induction k as [|k IH]; simpl.
  - discriminate.
  - intros H. apply Qcmult_integral in H. tauto.
Qed.

Lemma discounted_sum_shift (k : nat) (l : list Qc) :
  r <> 0 -> discounted_sum r k l = r * discounted_sum r (S k) l.
Proof.
  intros Hr. revert k. induction l as [|v l IH]; intros k; simpl.
  - ring.
  - rewrite (IH (S k)). simpl. field.
    repeat split; auto using Qcpower_nonzero.
Qed.

Lemma fold_left_discounted (k : nat) (l : list Qc) (a : Qc) :
  fold_left Qcplus (discounted r k l) a = a + discounted_sum r k l.
Proof.
  revert k a. induction l as [|v l IH]; intros k a; simpl.
  - ring.
  - rewrite IH. ring.
Qed.

Lemma py_sum_discounted (k : nat) (l : list Qc) :
  py_sum (discounted r k l) = discounted_sum r k l.
Proof. unfold py_sum. rewrite fold_left_discounted. ring. Qed.

(** The specification's sum over the periods [k .. k + m - 1]. *)
Lemma foldr_items (k : nat) (l : list Qc) :
  foldr Qcplus 0
    (map (fun i => nth (i - k) l 0 / r ^ i) (seq k (length l)))
  = discounted_sum r k l.
Proof.
  revert k. induction l as [|v l IH]; intros k; simpl.
  - reflexivity.
  - rewrite Nat.sub_diag. f_equal. rewrite <- (IH (S k)). f_equal.
    apply map_ext_in. intros i Hi. apply in_seq in Hi.
    replace (i - k)%nat with (S (i - S k)) by lia. reflexivity.
Qed.

Lemma sum_1_to_items (l : list Qc) :
  sum_1_to (length l) (fun i => item l i / r ^ i) = discounted_sum r 1 l.
Proof. unfold sum_1_to, item. apply foldr_items. Qed.

End Discounting.

(** [numpy_financial.npv] on a rate other than -1 is finite, and its first
    flow is not discounted. *)
Lemma npf_npv_value (rate : Qc) (values : list Qc) :
  1 + rate <> 0 ->
  npf_npv rate values = Some (discounted_sum (1 + rate) 0 values).
Proof.
  intros Hr. unfold npf_npv, np_sum.
  assert (forall l k a,
    foldl (fun acc x => a ← acc; v ← x; Some (a + v)) (Some a)
      (zip_with (fun v t => np_div v ((1 + rate) ^ t)) l (seq k (length l)))
    = Some (a + discounted_sum (1 + rate) k l)) as Hgen.
  { induction l as [|v l IH]; intros k a; simpl.
    - f_equal. ring.
    - unfold np_div at 1.
      destruct (decide ((1 + rate) ^ k = 0)) as [H0|_].
      + exfalso. exact (Qcpower_nonzero _ k Hr H0).
      + simpl. rewrite IH. f_equal. ring. }
  rewrite Hgen. f_equal. ring.
Qed.

(** What [discount_cash_flows] returns against the documented present
    value: the whole sum is one period short of discounting. *)
Lemma discount_cash_flows_value (cash_flows : list Qc) (wacc : Qc) :
  1 + wacc <> 0 ->
  discount_cash_flows cash_flows wacc
  = Some ((1 + wacc) * present_value_from_period_1 cash_flows wacc).
Proof.
  intros Hr. unfold discount_cash_flows, present_value_from_period_1.
  rewrite npf_npv_value by exact Hr.
  rewrite sum_1_to_items, <- discounted_sum_shift by exact Hr. reflexivity.
Qed.

(** C2.  On the one-element sequence [108] at [wacc = 0.08] the present
    value with the flow at period 1 is [108 / 1.08 = 100], and
    [discount_cash_flows] returns [108]: the flow is taken at period 0. *)
Theorem discount_cash_flows_starts_at_period_0 :
  present_value_from_period_1 [of_int 108] (lit 8 100) = of_int 100
  /\ discount_cash_flows [of_int 108] (lit 8 100) = Some (of_int 108).
Proof. split; compute_done. Qed.

(** ** The composed DCF valuation *)

Section CalculateDcf.

Variables ebit tax_rate da capex wc g : Qc.
Variable n : Z.
Variables g_perp wacc : Qc.

Let fcf0 : Qc := calculate_fcf ebit tax_rate da capex wc.
Let projection : list Qc :=
  map (fun i => fcf0 * (1 + g) ^ i) (seq 1 (Z.to_nat n)).

(** The discounting comprehension over [enumerate]: with a discount base
    other than zero every quotient is defined. *)
Lemma discount_comprehension (r : Qc) (k : nat) (l : list Qc) :
  r <> 0 ->
  comprehension
    (fun '(i, fcf) => let! d := py_pow r (i + 1) in py_div fcf d)
    (combine (map Z.of_nat (seq k (length l))) l)
  = Ok (discounted r (S k) l).
Proof.
  intros Hr. revert k. induction l as [|v l IH]; intros k; simpl.
  - reflexivity.
  - rewrite py_pow_nonneg by lia.
    replace (Z.to_nat (Z.of_nat k + 1)) with (S k) by lia.
    cbn [bind]. rewrite py_div_nonzero by (apply Qcpower_nonzero, Hr).
    cbn [bind]. rewrite IH. reflexivity.
Qed.

(** With a zero discount base the first quotient already raises. *)
Lemma discount_comprehension_zero (v : Qc) (l : list Qc) :
  comprehension
    (fun '(i, fcf) => let! d := py_pow 0 (i + 1) in py_div fcf d)
    (enumerate (v :: l))
  = Raise ZeroDivisionError.
Proof.
  unfold enumerate. simpl length. simpl seq. simpl map. simpl combine.
  apply comprehension_raise_head.
  rewrite py_pow_nonneg by lia. cbn [bind].
  replace (0 ^ Z.to_nat (Z.of_nat 0 + 1)) with 0 by (simpl; ring).
  apply py_div_zero.
Qed.

Lemma projection_empty : (n <= 0)%Z -> projection = [].
Proof.
  intros Hn. unfold projection.
  replace (Z.to_nat n) with 0%nat by lia. reflexivity.
Qed.

Lemma projection_snoc :
  (1 <= n)%Z ->
  projection
  = map (fun i => fcf0 * (1 + g) ^ i) (seq 1 (Z.to_nat n - 1))
    ++ [fcf0 * (1 + g) ^ Z.to_nat n].
Proof.
  intros Hn. unfold projection.
  replace (Z.to_nat n) with (S (Z.to_nat n - 1)) at 1 by lia.
  rewrite seq_S, map_app. cbn [map].
  replace (1 + (Z.to_nat n - 1))%nat with (Z.to_nat n) by lia. reflexivity.
Qed.

Lemma projection_length : length projection = Z.to_nat n.
Proof. unfold projection. rewrite length_map, length_seq. reflexivity. Qed.

Lemma projection_final :
  (1 <= n)%Z -> item projection (Z.to_nat n) = fcf0 * (1 + g) ^ Z.to_nat n.
Proof.
  intros Hn. unfold item. rewrite projection_snoc by exact Hn.
  rewrite app_nth2; rewrite length_map, length_seq; [|lia].
  rewrite Nat.sub_diag. reflexivity.
Qed.

(** Without a projected year the last-element access raises, before the
    terminal value is computed. *)
Lemma calculate_dcf_no_years :
  (n <= 0)%Z ->
  calculate_dcf ebit tax_rate da capex wc g n g_perp wacc = Raise IndexError.
Proof.
  intros Hn. unfold calculate_dcf. rewrite project_fcf_closed_form.
  cbn [bind]. fold fcf0. fold projection. rewrite projection_empty by exact Hn.
  rewrite py_index_nil. reflexivity.
Qed.

(** From one projected year on the function reaches the terminal value. *)
Lemma calculate_dcf_unfold :
  (1 <= n)%Z ->
  calculate_dcf ebit tax_rate da capex wc g n g_perp wacc
  = let! terminal_value :=
      calculate_terminal_value (item projection (Z.to_nat n)) g_perp wacc in
    let! discounted_fcf :=
      comprehension
        (fun '(i, fcf) => let! d := py_pow (1 + wacc) (i + 1) in py_div fcf d)
        (enumerate projection) in
    let! d := py_pow (1 + wacc) (n + 1) in
    let! discounted_terminal := py_div terminal_value d in
    Ok (py_sum discounted_fcf + discounted_terminal, projection,
        terminal_value).
Proof.
  intros Hn. unfold calculate_dcf. rewrite project_fcf_closed_form.
  cbn [bind]. fold fcf0. fold projection.
  rewrite (projection_final Hn).
  rewrite (projection_snoc Hn) at 1. rewrite py_index_last. reflexivity.
Qed.

Lemma calculate_dcf_equal_rates :
  (1 <= n)%Z -> wacc = g_perp ->
  calculate_dcf ebit tax_rate da capex wc g n g_perp wacc
  = Raise ZeroDivisionError.
Proof.
  intros Hn Heq. rewrite (calculate_dcf_unfold Hn), Heq.
  rewrite calculate_terminal_value_undefined. reflexivity.
Qed.

Lemma calculate_dcf_zero_base :
  (1 <= n)%Z -> wacc <> g_perp -> 1 + wacc = 0 ->
  calculate_dcf ebit tax_rate da capex wc g n g_perp wacc
  = Raise ZeroDivisionError.
Proof.
  intros Hn Hne H0. rewrite (calculate_dcf_unfold Hn).
  rewrite calculate_terminal_value_defined by exact Hne. cbn [bind].
  rewrite H0.
  assert (exists v l, projection = v :: l) as (v & l & Hp).
  { rewrite (projection_snoc Hn).
    generalize (map (fun i => fcf0 * (1 + g) ^ i) (seq 1 (Z.to_nat n - 1))).
    intros [|a l']; do 2 eexists; reflexivity. }
  rewrite Hp, discount_comprehension_zero. reflexivity.
Qed.

Lemma calculate_dcf_returns :
  (1 <= n)%Z -> wacc <> g_perp -> 1 + wacc <> 0 ->
  calculate_dcf ebit tax_rate da capex wc g n g_perp wacc
  = Ok (dcf_formulas ebit tax_rate da capex wc g (Z.to_nat n) g_perp wacc).
Proof.
  intros Hn Hne Hr. rewrite (calculate_dcf_unfold Hn).
  rewrite calculate_terminal_value_defined by exact Hne. cbn [bind].
  unfold enumerate. rewrite discount_comprehension by exact Hr. cbn [bind].
  rewrite py_pow_nonneg by lia. cbn [bind].
  rewrite py_div_nonzero by (apply Qcpower_nonzero, Hr). cbn [bind].
  rewrite py_sum_discounted.
  unfold dcf_formulas. fold (calculate_fcf ebit tax_rate da capex wc).
  fold fcf0. fold projection.
  replace (Z.to_nat (n + 1)) with (Z.to_nat n + 1)%nat by lia.
  pose proof (sum_1_to_items (1 + wacc) projection) as Hsum.
  rewrite projection_length in Hsum. rewrite Hsum. reflexivity.
Qed.

End CalculateDcf.

(** The three ways [calculate_dcf] ends, in exact arithmetic. *)
Lemma calculate_dcf_cases
    (ebit tax_rate da capex wc g : Qc) (n : Z) (g_perp wacc : Qc) :
  ((n <= 0)%Z
   /\ calculate_dcf ebit tax_rate da capex wc g n g_perp wacc
      = Raise IndexError)
  \/ ((1 <= n)%Z /\ (wacc = g_perp \/ 1 + wacc = 0)
      /\ calculate_dcf ebit tax_rate da capex wc g n g_perp wacc
         = Raise ZeroDivisionError)
  \/ ((1 <= n)%Z /\ wacc <> g_perp /\ 1 + wacc <> 0
      /\ calculate_dcf ebit tax_rate da capex wc g n g_perp wacc
         = Ok (dcf_formulas ebit tax_rate da capex wc g (Z.to_nat n) g_perp
                 wacc)).
Proof.
  destruct (Z.le_gt_cases n 0) as [Hn|Hn].
  { left. split; [exact Hn | apply calculate_dcf_no_years, Hn]. }
  assert (1 <= n)%Z as Hn1 by lia. right.
  destruct (decide (wacc = g_perp)) as [Heq|Hne].
  { left. split; [exact Hn1|]. split; [left; exact Heq|].
    apply calculate_dcf_equal_rates; assumption. }
  destruct (decide (1 + wacc = 0)) as [H0|Hr].
  { left. split; [exact Hn1|]. split; [right; exact H0|].
    apply calculate_dcf_zero_base; assumption. }
  right. repeat split; try assumption.
  apply calculate_dcf_returns; assumption.
Qed.

(** On binary64 numbers further inputs fail: a discount factor that
    underflows to zero makes the quotient raise, as at [n = 25] and
    [wacc = -(1 - 2^-52)], and a power that overflows raises, as at
    [wacc = 1e200]. *)
Lemma calculate_dcf_binary64_underflow :
  B64.calculate_dcf_terms (B64.of_int 1000) (B64.decimal 21 100)
    (B64.of_int 100) (B64.of_int 150) (B64.of_int 50) (B64.decimal 5 100) 25
    (B64.decimal 2 100) (B64.of_scaled (- (2 ^ 52 - 1)) (-52))
  = B64.Throw B64.ZeroDivision.
Proof. vm_compute. reflexivity. Qed.

Lemma calculate_dcf_binary64_overflow :
  B64.calculate_dcf_terms (B64.of_int 1000) (B64.decimal 21 100)
    (B64.of_int 100) (B64.of_int 150) (B64.of_int 50) (B64.decimal 5 100) 1
    (B64.decimal 2 100) (B64.of_int (10 ^ 200))
  = B64.Throw B64.Overflow.
Proof. vm_compute. reflexivity. Qed.







(** ** Comparable companies: the median multiple *)

Section Median.

Variable metric : string.

(** The comprehension of [compute_median_multiple] keeps exactly the
    values of the peers that have one. *)
Lemma metric_values_omap (peers : list peer) :
  metric_values metric peers (omap (fun p => dict_get p metric) peers).
Proof.
  induction peers as [|p ps IH]; simpl.
  - constructor.
  - unfold dict_get at 1. destruct (p !! metric) as [[v|]|] eqn:Hp.
    + apply mv_value; assumption.
    + apply mv_null; assumption.
    + apply mv_missing; assumption.
Qed.

Lemma metric_values_functional (peers : list peer) (vs ws : list Qc) :
  metric_values metric peers vs -> metric_values metric peers ws -> vs = ws.
Proof.
  intros Hv. revert ws.
  induction Hv as [|p ps vs Hp _ IH|p ps vs Hp _ IH|p ps v vs Hp _ IH];
    intros ws Hw; inversion Hw; subst; try congruence; auto.
  f_equal; [congruence | auto].
Qed.

(** Half of an odd and of an even length, on Python's integers. *)
Lemma half_odd (k : nat) :
  ((Z.of_nat (2 * k + 1)) `mod` 2 = 1 /\ (Z.of_nat (2 * k + 1)) `div` 2 = Z.of_nat k)%Z.
Proof.
  split; symmetry.
  - apply (Z.mod_unique _ 2 (Z.of_nat k) 1); lia.
  - apply (Z.div_unique _ 2 (Z.of_nat k) 1); lia.
Qed.

Lemma half_even (k : nat) :
  ((Z.of_nat (2 * k)) `mod` 2 = 0 /\ (Z.of_nat (2 * k)) `div` 2 = Z.of_nat k)%Z.
Proof.
  split; symmetry.
  - apply (Z.mod_unique _ 2 (Z.of_nat k) 0); lia.
  - apply (Z.div_unique _ 2 (Z.of_nat k) 0); lia.
Qed.

(** The median step on a sorted list of odd length. *)
Lemma median_odd (s : list Qc) (k : nat) :
  length s = (2 * k + 1)%nat ->
  exists m, s !! k = Some m
    /\ py_index s (Z.of_nat (length s) `div` 2) = Ok m.
Proof.
  intros Hlen. destruct (lookup_lt_is_Some_2 s k) as [m Hm]; [lia|].
  exists m. split; [exact Hm|].
  rewrite Hlen. destruct (half_odd k) as [_ ->].
  apply py_index_nat, Hm.
Qed.

(** The median step on a sorted list of even, nonzero length. *)
Lemma median_even (s : list Qc) (k : nat) :
  length s = (2 * k)%nat -> (1 <= k)%nat ->
  exists a b, s !! (k - 1)%nat = Some a /\ s !! k = Some b
    /\ py_index s (Z.of_nat (length s) `div` 2 - 1) = Ok a
    /\ py_index s (Z.of_nat (length s) `div` 2) = Ok b.
Proof.
  intros Hlen Hk.
  destruct (lookup_lt_is_Some_2 s (k - 1)) as [a Ha]; [lia|].
  destruct (lookup_lt_is_Some_2 s k) as [b Hb]; [lia|].
  exists a, b. split; [exact Ha|]. split; [exact Hb|].
  rewrite Hlen. destruct (half_even k) as [_ ->]. split.
  - replace (Z.of_nat k - 1)%Z with (Z.of_nat (k - 1)) by lia.
    apply py_index_nat, Ha.
  - apply py_index_nat, Hb.
Qed.

End Median.

(** C5.  [compute_median_multiple] keeps the values of the peers whose
    entry for the metric is neither missing nor null; with no value left it
    returns [None] and raises nothing; otherwise it sorts the values and
    returns the middle one when their number is odd, and the arithmetic
    mean of the two central ones when it is even. *)
Theorem compute_median_multiple_spec (peers : list peer) (metric : string) :
  exists vals : list Qc,
    metric_values metric peers vals
    /\ match vals with
       | [] => compute_median_multiple peers metric = Ok None
       | _ :: _ =>
           exists sorted : list Qc,
             sorted ≡ₚ vals
             /\ Sorted Qcle sorted
             /\ let k := (length sorted / 2)%nat in
                if Nat.odd (length sorted)
                then exists m,
                       sorted !! k = Some m
                       /\ compute_median_multiple peers metric = Ok (Some m)
                else exists a b,
                       sorted !! (k - 1)%nat = Some a
                       /\ sorted !! k = Some b
                       /\ compute_median_multiple peers metric
                          = Ok (Some ((a + b) / lit 2 1))
       end.
Proof.
  exists (omap (fun p => dict_get p metric) peers).
  split; [apply metric_values_omap|].
  unfold compute_median_multiple.
  destruct (omap _ peers) as [|v vs] eqn:Hvals; [reflexivity|].
  set (s := merge_sort Qcle (v :: vs)).
  assert (s ≡ₚ v :: vs) as Hperm by apply merge_sort_Permutation.
  exists s. split; [exact Hperm|]. split; [apply Sorted_merge_sort; apply _|].
  pose proof (Permutation_length Hperm) as Hlen. simpl in Hlen.
  cbv zeta.
  pose proof (Nat.div_mod_eq (length s) 2) as Hdm.
  pose proof (Nat.mod_upper_bound (length s) 2 ltac:(lia)) as Hub.
  destruct (Nat.odd (length s)) eqn:Hodd.
  - apply Nat.odd_spec in Hodd. destruct Hodd as [j Hj].
    assert ((length s / 2)%nat = j) as ->.
    { symmetry. apply (Nat.div_unique _ 2 j 1); lia. }
    destruct (median_odd s j Hj) as (m & Hm & Hidx).
    exists m. split; [exact Hm|].
    destruct (half_odd j) as [Hmod _]. rewrite <- Hj in Hmod.
    destruct (decide (_ = 0%Z)) as [H0|_]; [rewrite Hmod in H0; lia|].
    rewrite Hidx. reflexivity.
  - assert (Nat.even (length s) = true) as Heven
      by (rewrite <- Nat.negb_odd, Hodd; reflexivity).
    apply Nat.even_spec in Heven. destruct Heven as [j Hj].
    assert ((length s / 2)%nat = j) as ->.
    { symmetry. apply (Nat.div_unique _ 2 j 0); lia. }
    destruct (median_even s j Hj ltac:(lia)) as (a & b & Ha & Hb & Hia & Hib).
    exists a, b. split; [exact Ha|]. split; [exact Hb|].
    destruct (half_even j) as [Hmod _]. rewrite <- Hj in Hmod.
    destruct (decide (_ = 0%Z)) as [_|Hn0]; [|contradiction].
    rewrite Hia, Hib. reflexivity.
Qed.

(** ** Leveraged buyout *)

Section RepaymentLoop.

Variables interest_rate payment : Qc.

(** After the loop the outstanding debt is the initial debt less one
    payment per year: the interest rate plays no part in it. *)
Lemma repay_loop_outstanding (yrs : list Z) (st : Qc * list debt_record) :
  (foldl (repay interest_rate payment) st yrs).1
  = st.1 - Qc_of_Z (Z.of_nat (length yrs)) * payment.
Proof.
  revert st. induction yrs as [|y yrs IH]; intros st.
  - cbn [foldl length]. change (Z.of_nat 0) with 0%Z.
    rewrite Z2Qc_inj_0. ring.
  - cbn [foldl]. rewrite IH. cbn [repay fst length].
    rewrite Nat2Z.inj_succ, <- Z.add_1_r, Z2Qc_inj_add, Z2Qc_inj_1. ring.
Qed.

(** The loop appends one record per year. *)
Lemma repay_loop_length (yrs : list Z) (st : Qc * list debt_record) :
  length (foldl (repay interest_rate payment) st yrs).2
  = (length st.2 + length yrs)%nat.
Proof.
  revert st. induction yrs as [|y yrs IH]; intros st.
  - simpl. lia.
  - cbn [foldl]. rewrite IH. cbn [repay snd]. rewrite length_app. simpl. lia.
Qed.

(** Every record the loop appends has a nonnegative [remaining_debt]. *)
Lemma repay_loop_remaining (yrs : list Z) (st : Qc * list debt_record) :
  Forall (fun rec => 0 <= remaining_debt rec) st.2 ->
  Forall (fun rec => 0 <= remaining_debt rec)
    (foldl (repay interest_rate payment) st yrs).2.
Proof.
  revert st. induction yrs as [|y yrs IH]; intros st Hst.
  - exact Hst.
  - cbn [foldl]. apply IH. cbn [repay snd].
    apply Forall_app. split; [exact Hst|].
    constructor; [|constructor]. cbn [remaining_debt]. apply py_max_lower.
Qed.

(** The last record holds the balance the loop ends with. *)
Lemma repay_loop_last (yrs : list Z) (st : Qc * list debt_record) :
  yrs <> [] ->
  remaining_debt <$> last (foldl (repay interest_rate payment) st yrs).2
  = Some (py_max (foldl (repay interest_rate payment) st yrs).1 0).
Proof.
  revert st. induction yrs as [|y yrs IH]; intros st Hne; [congruence|].
  cbn [foldl]. destruct yrs as [|y' yrs].
  - cbn [foldl repay fst snd]. rewrite last_snoc. reflexivity.
  - apply IH. discriminate.
Qed.

End RepaymentLoop.

Section Lbo.

Context {irr_value : Type}.
Variable npf_irr : list Qc -> result irr_value.
Variables purchase_price debt_ratio initial_ebitda ebitda_growth_rate
  exit_multiple : Qc.
Variable years : Z.

Lemma of_int_years_nonzero : (1 <= years)%Z -> of_int years <> 0.
Proof.
  intros Hy H0. unfold of_int in H0. rewrite <- Z2Qc_inj_0 in H0.
  apply Z2Qc_inj in H0. lia.
Qed.

Lemma py_range_length (a b : Z) : length (py_range a b) = Z.to_nat (b - a).
Proof. unfold py_range. rewrite length_map, length_seq. reflexivity. Qed.

(** Straight-line repayment over [years] leaves no debt. *)
Lemma repay_loop_clears (interest_rate : Qc) :
  (1 <= years)%Z ->
  (foldl (repay interest_rate (purchase_price * debt_ratio / of_int years))
     (purchase_price * debt_ratio, []) (py_range 1 (years + 1))).1 = 0.
Proof.
  intros Hy. rewrite repay_loop_outstanding, py_range_length. cbn [fst].
  replace (Z.of_nat (Z.to_nat (years + 1 - 1))) with years by lia.
  unfold of_int. field. apply of_int_years_nonzero, Hy.
Qed.

(** The state in which [run_lbo_model] reaches [npf.irr], for a horizon
    of at least one year. *)
Lemma lbo_before_irr_returns (interest_rate : Qc) :
  (1 <= years)%Z ->
  let payment := purchase_price * debt_ratio / of_int years in
  let st := foldl (repay interest_rate payment)
              (purchase_price * debt_ratio, []) (py_range 1 (years + 1)) in
  let exit_value :=
    exit_multiple * (initial_ebitda * (1 + ebitda_growth_rate) ^ Z.to_nat years) in
  lbo_before_irr purchase_price debt_ratio initial_ebitda ebitda_growth_rate
    exit_multiple years interest_rate
  = Ok {| debt_schedule := st.2;
          outstanding_debt := 0;
          exit_enterprise_value := exit_value;
          exit_equity_value := exit_value;
          equity_cash_flows :=
            [- (purchase_price * (1 - debt_ratio))]
            ++ py_repeat 0 (years - 1) ++ [exit_value] |}.
Proof.
  intros Hy payment st exit_value. unfold lbo_before_irr.
  rewrite py_div_nonzero by (apply of_int_years_nonzero, Hy). cbn [bind].
  rewrite py_pow_nonneg by lia. cbn [bind].
  rewrite (repay_loop_clears interest_rate Hy), py_max_diag.
  fold payment. fold st. fold exit_value.
  replace (exit_value - 0) with exit_value by ring. reflexivity.
Qed.

End Lbo.

(** C10.  For [years >= 1] the debt schedule has one record per year, every
    record has a nonnegative [remaining_debt], the debt left after the last
    straight-line payment is exactly zero (so is the last record's
    [remaining_debt]), and [exit_equity_value] is the exit enterprise value
    [exit_multiple * initial_ebitda * (1 + ebitda_growth_rate)^years] with
    nothing subtracted; this is the value [run_lbo_model] returns. *)
Theorem lbo_debt_fully_repaid {irr_value : Type}
    (npf_irr : list Qc -> result irr_value)
    (purchase_price debt_ratio initial_ebitda ebitda_growth_rate
     exit_multiple : Qc) (years : Z) (interest_rate : Qc) :
  (1 <= years)%Z ->
  exists s : lbo_state,
    lbo_before_irr purchase_price debt_ratio initial_ebitda
      ebitda_growth_rate exit_multiple years interest_rate = Ok s
    /\ Z.of_nat (length (debt_schedule s)) = years
    /\ Forall (fun rec => 0 <= remaining_debt rec) (debt_schedule s)
    /\ outstanding_debt s = 0
    /\ remaining_debt <$> last (debt_schedule s) = Some 0
    /\ exit_equity_value s
       = exit_multiple * initial_ebitda
         * (1 + ebitda_growth_rate) ^ Z.to_nat years
    /\ run_lbo_model npf_irr purchase_price debt_ratio initial_ebitda
         ebitda_growth_rate exit_multiple years interest_rate
       = (let! irr := npf_irr (equity_cash_flows s) in
          Ok (equity_cash_flows s, irr,
              exit_multiple * initial_ebitda
              * (1 + ebitda_growth_rate) ^ Z.to_nat years)).
Proof.
  intros Hy.
  pose proof (lbo_before_irr_returns purchase_price debt_ratio initial_ebitda
                ebitda_growth_rate exit_multiple years interest_rate Hy) as Hs.
  cbv zeta in Hs.
  assert (exit_multiple
            * (initial_ebitda * (1 + ebitda_growth_rate) ^ Z.to_nat years)
          = exit_multiple * initial_ebitda
            * (1 + ebitda_growth_rate) ^ Z.to_nat years) as Hexit by ring.
  eexists. split; [exact Hs|]. cbn [debt_schedule outstanding_debt
    exit_equity_value equity_cash_flows].
  repeat split.
  - rewrite repay_loop_length, py_range_length. simpl. lia.
  - apply repay_loop_remaining. constructor.
  - rewrite repay_loop_last.
    + rewrite (repay_loop_clears purchase_price debt_ratio years interest_rate Hy).
      rewrite py_max_diag. reflexivity.
    + intros Hnil. apply (f_equal length) in Hnil.
      rewrite py_range_length in Hnil. simpl in Hnil. lia.
  - exact Hexit.
  - unfold run_lbo_model. rewrite Hs. cbn [bind equity_cash_flows
      exit_equity_value]. rewrite Hexit. reflexivity.
Qed.

Lemma lbo_debt_fully_repaid_witness :
  exists s : lbo_state,
    lbo_before_irr (of_int 1000) (lit 6 10) (of_int 120) (lit 5 100)
      (of_int 8) 5 (lit 8 100) = Ok s
    /\ Z.of_nat (length (debt_schedule s)) = 5%Z
    /\ Forall (fun rec => 0 <= remaining_debt rec) (debt_schedule s)
    /\ outstanding_debt s = 0
    /\ remaining_debt <$> last (debt_schedule s) = Some 0
    /\ exit_equity_value s
       = of_int 8 * of_int 120 * (1 + lit 5 100) ^ Z.to_nat 5
    /\ run_lbo_model (fun _ => Ok tt) (of_int 1000) (lit 6 10) (of_int 120)
         (lit 5 100) (of_int 8) 5 (lit 8 100)
       = (let! irr := Ok tt in
          Ok (equity_cash_flows s, irr,
              of_int 8 * of_int 120 * (1 + lit 5 100) ^ Z.to_nat 5)).
Proof.
  apply (lbo_debt_fully_repaid (fun _ => Ok tt) (of_int 1000) (lit 6 10)
           (of_int 120) (lit 5 100) (of_int 8) 5 (lit 8 100)).
  lia.
Defined.

(** C6.  Two calls of [run_lbo_model] that differ only in [interest_rate]
    have the same outcome: the same equity cash-flow vector, the same IRR
    and the same exit equity value (or the same exception).  The interest
    rate only enters the [interest_expense] fields of the debt schedule. *)
Theorem run_lbo_model_ignores_interest_rate {irr_value : Type}
    (npf_irr : list Qc -> result irr_value)
    (purchase_price debt_ratio initial_ebitda ebitda_growth_rate
     exit_multiple : Qc) (years : Z) (rate1 rate2 : Qc) :
  run_lbo_model npf_irr purchase_price debt_ratio initial_ebitda
    ebitda_growth_rate exit_multiple years rate1
  = run_lbo_model npf_irr purchase_price debt_ratio initial_ebitda
      ebitda_growth_rate exit_multiple years rate2.
Proof.
  unfold run_lbo_model, lbo_before_irr.
  destruct (py_div _ _) as [payment|e]; [|reflexivity]. cbn [bind].
  destruct (py_pow _ _) as [growth|e]; [|reflexivity]. cbn [bind].
  cbn [equity_cash_flows exit_equity_value].
  rewrite !repay_loop_outstanding. reflexivity.
Qed.

(** C1, as the specification states it, fails on the length: on the
    example inputs of Models.py, with [years = 5], the vector has 6
    elements, one for time 0 and one for each of the 5 years. *)
Lemma run_lbo_model_vector_not_of_length_years :
  (1 <= 5)%Z
  /\ run_lbo_model (fun _ => Ok tt) (of_int 1000) (lit 6 10) (of_int 120)
       (lit 5 100) (of_int 8) 5 (lit 8 100)
     = Ok ([of_int (-400); 0; 0; 0; 0; lit 12252303 10000], tt,
           lit 12252303 10000)
  /\ Z.of_nat (length [of_int (-400); 0; 0; 0; 0; lit 12252303 10000]) <> 5%Z.
Proof. split; [lia | split; [compute_done | simpl; lia]]. Qed.

(** C1, amended.  For [years >= 1] the equity cash-flow vector of
    [run_lbo_model] has length [years + 1]: its first element is
    [-purchase_price*(1-debt_ratio)], the elements at positions
    [1 .. years - 1] are zero, and its last element, at position [years],
    is the returned [exit_equity_value]. *)
Theorem run_lbo_model_cash_flows {irr_value : Type}
    (npf_irr : list Qc -> result irr_value)
    (purchase_price debt_ratio initial_ebitda ebitda_growth_rate
     exit_multiple : Qc) (years : Z) (interest_rate : Qc) :
  (1 <= years)%Z ->
  exists (cfs : list Qc) (exit_value : Qc),
    run_lbo_model npf_irr purchase_price debt_ratio initial_ebitda
      ebitda_growth_rate exit_multiple years interest_rate
    = (let! irr := npf_irr cfs in Ok (cfs, irr, exit_value))
    /\ Z.of_nat (length cfs) = (years + 1)%Z
    /\ cfs !! 0%nat = Some (- purchase_price * (1 - debt_ratio))
    /\ (forall i : nat, (1 <= i < Z.to_nat years)%nat -> cfs !! i = Some 0)
    /\ cfs !! Z.to_nat years = Some exit_value
    /\ last cfs = Some exit_value.
Proof.
  intros Hy.
  pose proof (lbo_before_irr_returns purchase_price debt_ratio initial_ebitda
                ebitda_growth_rate exit_multiple years interest_rate Hy) as Hs.
  cbv zeta in Hs.
  do 2 eexists. split.
  { unfold run_lbo_model. rewrite Hs. cbn [bind equity_cash_flows
      exit_equity_value]. reflexivity. }
  unfold py_repeat.
  assert (length (replicate (Z.to_nat (years - 1)) (0 : Qc))
          = (Z.to_nat years - 1)%nat) as Hlen
    by (rewrite length_replicate; lia).
  repeat split.
  - rewrite !length_app, Hlen. simpl. lia.
  - simpl. f_equal. ring.
  - intros i Hi. rewrite lookup_app_r by (simpl; lia).
    rewrite lookup_app_l by (rewrite Hlen; simpl; lia).
    apply lookup_replicate_2. simpl. lia.
  - rewrite lookup_app_r by (simpl; lia).
    rewrite lookup_app_r by (rewrite Hlen; simpl; lia).
    rewrite Hlen. simpl length.
    replace (Z.to_nat years - 1 - (Z.to_nat years - 1))%nat with 0%nat by lia.
    reflexivity.
  - rewrite app_assoc. apply last_snoc.
Qed.

Lemma run_lbo_model_cash_flows_witness :
  exists (cfs : list Qc) (exit_value : Qc),
    run_lbo_model (fun _ => Ok tt) (of_int 1000) (lit 6 10) (of_int 120)
      (lit 5 100) (of_int 8) 5 (lit 8 100)
    = (let! irr := Ok tt in Ok (cfs, irr, exit_value))
    /\ Z.of_nat (length cfs) = (5 + 1)%Z
    /\ cfs !! 0%nat = Some (- of_int 1000 * (1 - lit 6 10))
    /\ (forall i : nat, (1 <= i < Z.to_nat 5)%nat -> cfs !! i = Some 0)
    /\ cfs !! Z.to_nat 5 = Some exit_value
    /\ last cfs = Some exit_value.
Proof.
  apply (run_lbo_model_cash_flows (fun _ => Ok tt) (of_int 1000) (lit 6 10)
           (of_int 120) (lit 5 100) (of_int 8) 5 (lit 8 100)).
  lia.
Defined.

(** * Further properties of the code *)

(** ** Projection and the outcome of the DCF valuation *)

(** X1.  A horizon of zero or less is not rejected: [project_fcf] returns
    the empty list, and evaluates no power on the way, so that nothing can
    overflow on binary64 numbers either. *)
Theorem project_fcf_nonpositive_years (fcf0 g : Qc) (years : Z) :
  (years <= 0)%Z ->
  project_fcf fcf0 g years = Ok []
  /\ forall f r, B64.project_fcf f r years = B64.Return [].
Proof.
  intros Hy. split.
  - rewrite project_fcf_closed_form.
    replace (Z.to_nat years) with 0%nat by lia. reflexivity.
  - intros f r. unfold B64.project_fcf, py_range.
    replace (Z.to_nat (years + 1 - 1)) with 0%nat by lia. reflexivity.
Qed.

Lemma project_fcf_nonpositive_years_witness :
  project_fcf (of_int 100) (lit 5 100) (-2) = Ok []
  /\ forall f r, B64.project_fcf f r (-2) = B64.Return [].
Proof.
  apply (project_fcf_nonpositive_years (of_int 100) (lit 5 100) (-2)). lia.
Defined.

(** X3.  [calculate_dcf] raises [IndexError] exactly when
    [projection_years <= 0]: a negative horizon fails like a zero one, and
    the index error comes before any division, also when the two rates are
    equal. *)
Theorem calculate_dcf_index_error_iff
    (ebit tax_rate da capex wc g : Qc) (n : Z) (g_perp wacc : Qc) :
  calculate_dcf ebit tax_rate da capex wc g n g_perp wacc = Raise IndexError
  <-> (n <= 0)%Z.
Proof.
  destruct (calculate_dcf_cases ebit tax_rate da capex wc g n g_perp wacc)
    as [[Hn H]|[(Hn & _ & H)|(Hn & _ & _ & H)]]; rewrite H.
  - tauto.
  - split; [discriminate | lia].
  - split; [discriminate | lia].
Qed.

(** ** The median multiple, continued *)

Section MedianMore.

Variable metric : string.

Let values (peers : list peer) : list Qc :=
  omap (fun p => dict_get p metric) peers.

(** The three ways [compute_median_multiple] returns, on the sorted
    values [s]. *)
Lemma median_cases (peers : list peer) :
  let s := merge_sort Qcle (values peers) in
  (values peers = [] /\ compute_median_multiple peers metric = Ok None)
  \/ (exists (k : nat) (m : Qc),
        length s = (2 * k + 1)%nat /\ s !! k = Some m
        /\ compute_median_multiple peers metric = Ok (Some m))
  \/ (exists (k : nat) (a b : Qc),
        length s = (2 * k)%nat /\ (1 <= k)%nat
        /\ s !! (k - 1)%nat = Some a /\ s !! k = Some b
        /\ compute_median_multiple peers metric
           = Ok (Some ((a + b) / lit 2 1))).
Proof.
  unfold values, compute_median_multiple.
  destruct (omap _ peers) as [|v vs] eqn:Hvals; [left; split; reflexivity|].
  right. cbv zeta. set (s := merge_sort Qcle (v :: vs)).
  assert (length s = S (length vs)) as Hlen
    by (unfold s; rewrite (Permutation_length (merge_sort_Permutation _ _));
        reflexivity).
  destruct (Nat.Even_or_Odd (length s)) as [[j Hj]|[j Hj]].
  - right. destruct (median_even s j Hj ltac:(lia))
      as (a & b & Ha & Hb & Hia & Hib).
    exists j, a, b. repeat split; try assumption; [lia|].
    destruct (half_even j) as [Hmod _]. rewrite <- Hj in Hmod.
    destruct (decide (_ = 0%Z)) as [_|Hn0]; [|contradiction].
    rewrite Hia, Hib. reflexivity.
  - left. destruct (median_odd s j Hj) as (m & Hm & Hidx).
    exists j, m. repeat split; try assumption.
    destruct (half_odd j) as [Hmod _]. rewrite <- Hj in Hmod.
    destruct (decide (_ = 0%Z)) as [H0|_]; [rewrite Hmod in H0; lia|].
    rewrite Hidx. reflexivity.
Qed.

Lemma values_nil_iff (peers : list peer) :
  values peers = [] <-> Forall (fun p => dict_get p metric = None) peers.
Proof.
  unfold values. induction peers as [|p ps IH]; simpl.
  - split; [constructor | reflexivity].
  - destruct (dict_get p metric) as [v|] eqn:Hp.
    + split; [discriminate|]. intros H. inversion H; congruence.
    + rewrite IH. split.
      * intros H. constructor; assumption.
      * intros H. inversion H; assumption.
Qed.

Lemma values_filter (peers : list peer) :
  values (filter (fun p => is_Some (dict_get p metric)) peers) = values peers.
Proof.
  unfold values. induction peers as [|p ps IH]; [reflexivity|].
  destruct (dict_get p metric) as [v|] eqn:Hp.
  - rewrite filter_cons_True by (rewrite Hp; eauto).
    cbn [omap list_omap]. rewrite Hp, IH. reflexivity.
  - rewrite filter_cons_False by (rewrite Hp; intros [? ?]; discriminate).
    cbn [omap list_omap]. rewrite Hp. exact IH.
Qed.

(** The result is a function of the values alone. *)
Lemma compute_median_multiple_values (peers1 peers2 : list peer) :
  values peers1 = values peers2 ->
  compute_median_multiple peers1 metric = compute_median_multiple peers2 metric.
Proof.
  unfold values, compute_median_multiple. intros ->. reflexivity.
Qed.

Lemma merge_sort_unique (l1 l2 : list Qc) :
  l1 ≡ₚ l2 -> merge_sort Qcle l1 = merge_sort Qcle l2.
Proof.
  intros Hperm. apply (Sorted_unique Qcle).
  - apply Sorted_merge_sort; apply _.
  - apply Sorted_merge_sort; apply _.
  - rewrite !merge_sort_Permutation. exact Hperm.
Qed.

Lemma compute_median_multiple_perm_values (peers1 peers2 : list peer) :
  values peers1 ≡ₚ values peers2 ->
  compute_median_multiple peers1 metric = compute_median_multiple peers2 metric.
Proof.
  unfold values, compute_median_multiple. intros Hperm.
  destruct (omap _ peers1) as [|v1 vs1];
    destruct (omap _ peers2) as [|v2 vs2].
  - reflexivity.
  - apply Permutation_nil_l in Hperm. discriminate.
  - apply Permutation_nil_r in Hperm. discriminate.
  - rewrite (merge_sort_unique _ _ Hperm). reflexivity.
Qed.

End MedianMore.

(** X7.  The order of the peers does not matter: two peer lists that are
    permutations of each other have the same median multiple. *)
Theorem compute_median_multiple_permutation
    (peers1 peers2 : list peer) (metric : string) :
  peers1 ≡ₚ peers2 ->
  compute_median_multiple peers1 metric = compute_median_multiple peers2 metric.
Proof.
  intros Hperm. apply compute_median_multiple_perm_values.
  rewrite Hperm. reflexivity.
Qed.

Lemma compute_median_multiple_permutation_witness :
  compute_median_multiple
    [ {[ "P/E"%string := Some (lit 28 1) ]}; {[ "P/E"%string := Some (lit 35 1) ]} ]
    "P/E"
  = compute_median_multiple
      [ {[ "P/E"%string := Some (lit 35 1) ]}; {[ "P/E"%string := Some (lit 28 1) ]} ]
      "P/E".
Proof.
  apply (compute_median_multiple_permutation
           [ {[ "P/E"%string := Some (lit 28 1) ]};
             {[ "P/E"%string := Some (lit 35 1) ]} ]
           [ {[ "P/E"%string := Some (lit 35 1) ]};
             {[ "P/E"%string := Some (lit 28 1) ]} ] "P/E").
  apply perm_swap.
Defined.

(** X8.  Peers without a value for the metric (key absent or entry null)
    have no influence: dropping them all from the list leaves the result
    unchanged. *)
Theorem compute_median_multiple_ignores_missing
    (peers : list peer) (metric : string) :
  compute_median_multiple
    (filter (fun p => is_Some (dict_get p metric)) peers) metric
  = compute_median_multiple peers metric.
Proof. apply compute_median_multiple_values, values_filter. Qed.

(** [None] is the result for an empty set of values only, and nothing is
    raised. *)
Lemma median_none_iff (peers : list peer) (metric : string) :
  (exists r, compute_median_multiple peers metric = Ok r)
  /\ (compute_median_multiple peers metric = Ok None
      <-> Forall (fun p => dict_get p metric = None) peers).
Proof.
  rewrite <- values_nil_iff.
  destruct (median_cases metric peers)
    as [[Hnil ->]|[(k & m & Hlen & _ & ->)|(k & a & b & Hlen & Hk & _ & _ & ->)]].
  - split; [eauto | tauto].
  - split; [eauto|]. split; [discriminate|].
    intros Hnil. rewrite Hnil in Hlen. simpl in Hlen. lia.
  - split; [eauto|]. split; [discriminate|].
    intros Hnil. rewrite Hnil in Hlen. simpl in Hlen. lia.
Qed.

(** X9.  [compute_median_multiple] never raises, and it returns [None]
    exactly when no peer has a value for the metric. *)
Theorem compute_median_multiple_none_iff
    (peers : list peer) (metric : string) :
  (exists r, compute_median_multiple peers metric = Ok r)
  /\ (compute_median_multiple peers metric = Ok None
      <-> Forall (fun p => dict_get p metric = None) peers).
Proof. apply median_none_iff. Qed.

(** ** Where the median lies *)

Section MedianOrder.

Lemma lit_2 : lit 2 1 = 1 + 1.
Proof. apply Qc_is_canon. reflexivity. Qed.

Lemma two_nonzero : (1 + 1 : Qc) <> 0.
Proof. discriminate. Qed.

(** The mean of two ordered numbers lies between them. *)
Lemma mean_between (a b : Qc) :
  a <= b -> a <= (a + b) / lit 2 1 /\ (a + b) / lit 2 1 <= b.
Proof.
  intros Hab. rewrite lit_2. apply Qcle_minus_iff in Hab.
  assert (0 <= (b + - a) * / (1 + 1)) as Hhalf.
  { apply Qcmult_nonneg_nonneg; [exact Hab|].
    apply Qclt_le_weak, Qcinv_pos. reflexivity. }
  split; apply Qcle_minus_iff.
  - replace ((a + b) / (1 + 1) + - a) with ((b + - a) * / (1 + 1));
      [exact Hhalf|]. field. exact two_nonzero.
  - replace (b + - ((a + b) / (1 + 1))) with ((b + - a) * / (1 + 1));
      [exact Hhalf|]. field. exact two_nonzero.
Qed.

(** In a sorted list the elements are ordered as their positions. *)
Lemma sorted_lookup_le (s : list Qc) (i j : nat) (x y : Qc) :
  StronglySorted Qcle s -> (i <= j)%nat ->
  s !! i = Some x -> s !! j = Some y -> x <= y.
Proof.
  intros Hs. revert i j. induction Hs as [|z s _ IH Hz]; intros i j Hij Hx Hy.
  - rewrite lookup_nil in Hx. discriminate.
  - destruct i as [|i], j as [|j]; simpl in Hx, Hy; try lia.
    + inversion Hx; inversion Hy; subst. apply Qcle_refl.
    + inversion Hx; subst.
      rewrite List.Forall_forall in Hz. apply Hz.
      apply list_elem_of_In. eapply list_elem_of_lookup_2. exact Hy.
    + apply (IH i j); [lia | assumption | assumption].
Qed.

Variable P : Qc -> Prop.
Context `{!forall x, Decision (P x)}.

(** Counting the elements with a property from a prefix and from a suffix
    that have it throughout. *)
Lemma count_prefix (s : list Qc) (c : nat) :
  (forall i x, (i < c)%nat -> s !! i = Some x -> P x) ->
  (c <= length s)%nat -> (c <= length (filter P s))%nat.
Proof.
  revert c. induction s as [|z s IH]; intros c Hall Hc; simpl in Hc.
  - lia.
  - destruct c as [|c]; [lia|].
    rewrite filter_cons_True by (apply (Hall 0%nat); [lia | reflexivity]).
    simpl. apply le_n_S, IH; [|lia].
    intros i x Hi Hx. apply (Hall (S i)); [lia | exact Hx].
Qed.

Lemma count_suffix (s : list Qc) (c : nat) :
  (forall i x, (c <= i)%nat -> s !! i = Some x -> P x) ->
  (length s - c <= length (filter P s))%nat.
Proof.
  revert c. induction s as [|z s IH]; intros c Hall; simpl.
  - lia.
  - destruct c as [|c].
    + rewrite filter_cons_True by (apply (Hall 0%nat); [lia | reflexivity]).
      simpl. apply le_n_S.
      specialize (IH 0%nat). rewrite Nat.sub_0_r in IH. apply IH.
      intros i x _ Hx. apply (Hall (S i)); [lia | exact Hx].
    + specialize (IH c). rewrite filter_cons.
      assert (length s - c <= length (filter P s))%nat as Hle.
      { apply IH. intros i x Hi Hx. apply (Hall (S i)); [lia | exact Hx]. }
      destruct (decide (P z)); simpl; lia.
Qed.

End MedianOrder.

(** X10.  A median that is returned lies between two values of the peer
    group, so within the range of the peers' multiples. *)
Theorem compute_median_multiple_within_range
    (peers : list peer) (metric : string) (m : Qc) :
  compute_median_multiple peers metric = Ok (Some m) ->
  exists (p q : peer) (lo hi : Qc),
    p ∈ peers /\ q ∈ peers
    /\ dict_get p metric = Some lo /\ dict_get q metric = Some hi
    /\ lo <= m /\ m <= hi.
Proof.
  intros Hm.
  assert (forall (i : nat) (x : Qc),
            merge_sort Qcle (omap (fun p => dict_get p metric) peers) !! i
            = Some x ->
            exists p, p ∈ peers /\ dict_get p metric = Some x) as Hfrom.
  { intros i x Hx. apply list_elem_of_lookup_2 in Hx.
    rewrite merge_sort_Permutation in Hx.
    apply list_elem_of_omap in Hx. exact Hx. }
  destruct (median_cases metric peers)
    as [[_ H]|[(k & x & _ & Hx & H)|(k & a & b & _ & Hk & Ha & Hb & H)]];
    rewrite H in Hm; inversion Hm; subst; clear Hm.
  - destruct (Hfrom _ _ Hx) as (p & Hp & Hv).
    exists p, p, m, m. repeat split; try assumption; apply Qcle_refl.
  - destruct (Hfrom _ _ Ha) as (p & Hp & Hpv).
    destruct (Hfrom _ _ Hb) as (q & Hq & Hqv).
    assert (a <= b) as Hab.
    { apply (sorted_lookup_le
               (merge_sort Qcle (omap (fun p => dict_get p metric) peers))
               (k - 1) k a b); try assumption; try lia.
      apply StronglySorted_merge_sort; apply _. }
    exists p, q, a, b. repeat split; try assumption;
      apply mean_between, Hab.
Qed.

Lemma compute_median_multiple_within_range_witness :
  exists (p q : peer) (lo hi : Qc),
    p ∈ dashboard_peers /\ q ∈ dashboard_peers
    /\ dict_get p "EV/EBITDA" = Some lo /\ dict_get q "EV/EBITDA" = Some hi
    /\ lo <= lit 19 1 /\ lit 19 1 <= hi.
Proof.
  apply (compute_median_multiple_within_range dashboard_peers "EV/EBITDA"
           (lit 19 1)).
  vm_compute. reflexivity.
Defined.

(** X11.  A median that is returned splits the values: at least half of
    the peers' values are at most the median, and at least half are at
    least the median. *)
Theorem compute_median_multiple_splits
    (peers : list peer) (metric : string) (vals : list Qc) (m : Qc) :
  metric_values metric peers vals ->
  compute_median_multiple peers metric = Ok (Some m) ->
  (length vals <= 2 * length (filter (fun v : Qc => (v <= m)%Qc) vals))%nat
  /\ (length vals <= 2 * length (filter (fun v : Qc => (m <= v)%Qc) vals))%nat.
Proof.
  intros Hvals Hm.
  rewrite (metric_values_functional metric peers vals _ Hvals
             (metric_values_omap metric peers)).
  set (vs := omap (fun p => dict_get p metric) peers).
  set (s := merge_sort Qcle vs).
  assert (s ≡ₚ vs) as Hperm by apply merge_sort_Permutation.
  assert (StronglySorted Qcle s) as Hs
    by (apply StronglySorted_merge_sort; apply _).
  rewrite <- !Hperm.
  destruct (median_cases metric peers)
    as [[_ H]|[(k & x & Hlen & Hx & H)|(k & a & b & Hlen & Hk & Ha & Hb & H)]];
    rewrite H in Hm; inversion Hm; subst m; clear Hm;
    fold vs in Hlen; fold s in Hlen.
  - fold vs in Hx. fold s in Hx. split.
    + pose proof (count_prefix (fun v : Qc => (v <= x)%Qc) s (k + 1)) as Hc.
      assert (k + 1 <= length (filter (fun v : Qc => (v <= x)%Qc) s))%nat; [|lia].
      apply Hc; [|lia]. intros i y Hi Hy.
      apply (sorted_lookup_le s i k); try assumption. lia.
    + pose proof (count_suffix (fun v : Qc => (x <= v)%Qc) s k) as Hc.
      assert (length s - k <= length (filter (fun v : Qc => (x <= v)%Qc) s))%nat; [|lia].
      apply Hc. intros i y Hi Hy.
      apply (sorted_lookup_le s k i); assumption.
  - fold vs in Ha, Hb. fold s in Ha, Hb.
    assert (a <= b) as Hab
      by (apply (sorted_lookup_le s (k - 1) k); try assumption; lia).
    destruct (mean_between a b Hab) as [Hlo Hhi]. split.
    + pose proof (count_prefix (fun v : Qc => (v <= (a + b) / lit 2 1)%Qc) s k) as Hc.
      assert (k <= length (filter (fun v : Qc => (v <= (a + b) / lit 2 1)%Qc) s))%nat;
        [|lia].
      apply Hc; [|lia]. intros i y Hi Hy.
      apply Qcle_trans with a; [|exact Hlo].
      apply (sorted_lookup_le s i (k - 1)); try assumption. lia.
    + pose proof (count_suffix (fun v : Qc => ((a + b) / lit 2 1 <= v)%Qc) s k) as Hc.
      assert (length s - k
              <= length (filter (fun v : Qc => ((a + b) / lit 2 1 <= v)%Qc) s))%nat;
        [|lia].
      apply Hc. intros i y Hi Hy.
      apply Qcle_trans with b; [exact Hhi|].
      apply (sorted_lookup_le s k i); assumption.
Qed.

Lemma compute_median_multiple_splits_witness :
  (length [lit 28 1; lit 35 1]
   <= 2 * length (filter (fun v : Qc => (v <= lit 63 2)%Qc) [lit 28 1; lit 35 1]))%nat
  /\ (length [lit 28 1; lit 35 1]
      <= 2 * length (filter (fun v : Qc => (lit 63 2 <= v)%Qc) [lit 28 1; lit 35 1]))%nat.
Proof.
  apply (compute_median_multiple_splits
           [ {[ "P/E"%string := Some (lit 28 1) ]};
             {[ "P/E"%string := Some (lit 35 1) ]} ] "P/E"
           [lit 28 1; lit 35 1] (lit 63 2)).
  - apply mv_value; [reflexivity|].
    apply mv_value; [reflexivity|]. apply mv_nil.
  - vm_compute. reflexivity.
Defined.

(** ** The callers of the comparables model *)

(** X12.  The sentinel is not handled by the callers: the two lines
    [median = compute_median_multiple(peers, metric)],
    [apply_comps(target, median)] raise [TypeError] exactly when no peer has
    a value for the metric, raise nothing else, and otherwise give the
    target's metric times the median; on the static peer group of the
    dashboard that is 19 times the target's EBITDA. *)
Theorem comps_valuation_outcomes
    (peers : list peer) (metric : string) (target : Qc) :
  (comps_valuation peers metric target = TypeError
   <-> Forall (fun p => dict_get p metric = None) peers)
  /\ (forall e, comps_valuation peers metric target <> Raised e)
  /\ (forall m,
        compute_median_multiple peers metric = Ok (Some m) ->
        comps_valuation peers metric target = Estimate m (target * m))
  /\ comps_valuation dashboard_peers "EV/EBITDA" target
     = Estimate (lit 19 1) (target * lit 19 1).
Proof.
  destruct (median_none_iff peers metric) as [[r Hr] Hnone].
  unfold comps_valuation at 1 2 3. rewrite Hr in *.
  split; [|split; [|split]].
  - rewrite <- Hnone. destruct r as [m|]; split; try discriminate; try done.
  - intros e. destruct r; discriminate.
  - intros m Hm. inversion Hm; subst. reflexivity.
  - unfold comps_valuation.
    replace (compute_median_multiple dashboard_peers "EV/EBITDA")
      with (Ok (Some (lit 19 1)) : result (option Qc)) by compute_done.
    reflexivity.
Qed.

(** ** The leveraged buyout, continued *)

Lemma of_int_zero_iff (n : Z) : of_int n = 0 <-> n = 0%Z.
Proof.
  unfold of_int. rewrite <- Z2Qc_inj_0. apply Z2Qc_inj_iff.
Qed.

(** X13.  Before it reaches the root finder, [run_lbo_model] raises
    [ZeroDivisionError] exactly when [years = 0] (the straight-line payment
    divides by the horizon) or [years < 0] with [ebitda_growth_rate = -1] (a
    negative power of zero); [npf.irr] is then not called. *)
Theorem run_lbo_model_division_errors {irr_value : Type}
    (npf_irr : list Qc -> result irr_value)
    (purchase_price debt_ratio initial_ebitda ebitda_growth_rate
     exit_multiple : Qc) (years : Z) (interest_rate : Qc) :
  (lbo_before_irr purchase_price debt_ratio initial_ebitda
     ebitda_growth_rate exit_multiple years interest_rate
   = Raise ZeroDivisionError
   <-> years = 0%Z \/ ((years < 0)%Z /\ 1 + ebitda_growth_rate = 0))
  /\ (lbo_before_irr purchase_price debt_ratio initial_ebitda
        ebitda_growth_rate exit_multiple years interest_rate
      = Raise ZeroDivisionError ->
      run_lbo_model npf_irr purchase_price debt_ratio initial_ebitda
        ebitda_growth_rate exit_multiple years interest_rate
      = Raise ZeroDivisionError).
Proof.
  split; [|intros H; unfold run_lbo_model; rewrite H; reflexivity].
  unfold lbo_before_irr, py_div, py_pow.
  destruct (decide (of_int years = 0)) as [H0|H0];
    [apply of_int_zero_iff in H0 | rewrite of_int_zero_iff in H0].
  { cbn [bind]. tauto. }
  cbn [bind].
  destruct (Z.leb_spec 0 years) as [Hpos|Hneg].
  { cbn [bind]. split; [discriminate | lia]. }
  destruct (decide (1 + ebitda_growth_rate = 0)) as [Hg|Hg].
  { cbn [bind]. tauto. }
  cbn [bind]. split; [discriminate | tauto].
Qed.

(** The loop numbers its records by the years it runs through and gives
    each the same principal payment. *)
Lemma repay_loop_years_payments (interest_rate payment : Qc) (yrs : list Z)
    (st : Qc * list debt_record) :
  map year (foldl (repay interest_rate payment) st yrs).2
  = map year st.2 ++ yrs
  /\ (Forall (fun rec => principal_payment rec = payment) st.2 ->
      Forall (fun rec => principal_payment rec = payment)
        (foldl (repay interest_rate payment) st yrs).2).
Proof.
  revert st. induction yrs as [|y yrs IH]; intros st.
  - cbn [foldl]. rewrite app_nil_r. tauto.
  - cbn [foldl]. destruct (IH (repay interest_rate payment st y)) as [Hy Hp].
    split.
    + rewrite Hy. cbn [repay snd]. rewrite map_app, <- app_assoc.
      reflexivity.
    + intros Hst. apply Hp. cbn [repay snd]. apply Forall_app.
      split; [exact Hst|]. constructor; [reflexivity | constructor].
Qed.

(** X14.  Whenever the model reaches the root finder, its debt schedule
    has one record for each year of [range(1, years + 1)], numbered in that
    order, and every record carries the same principal payment, the quotient
    [purchase_price * debt_ratio / years]. *)
Theorem lbo_schedule_years_and_payments
    (purchase_price debt_ratio initial_ebitda ebitda_growth_rate
     exit_multiple : Qc) (years : Z) (interest_rate : Qc) (s : lbo_state) :
  lbo_before_irr purchase_price debt_ratio initial_ebitda
    ebitda_growth_rate exit_multiple years interest_rate = Ok s ->
  map year (debt_schedule s) = py_range 1 (years + 1)
  /\ Forall (fun rec =>
               principal_payment rec
               = purchase_price * debt_ratio / of_int years)
       (debt_schedule s).
Proof.
  unfold lbo_before_irr, py_div.
  destruct (decide (of_int years = 0)) as [?|_]; [discriminate|].
  cbn [bind]. destruct (py_pow _ _) as [growth|e]; [|discriminate].
  cbn [bind]. intros Hs. inversion Hs; subst s; clear Hs.
  cbn [debt_schedule].
  destruct (repay_loop_years_payments interest_rate
              (purchase_price * debt_ratio / of_int years)
              (py_range 1 (years + 1)) (purchase_price * debt_ratio, []))
    as [Hy Hp].
  split; [exact Hy | apply Hp; constructor].
Qed.

Lemma lbo_schedule_years_and_payments_witness :
  exists s : lbo_state,
    lbo_before_irr (of_int 1000) (lit 6 10) (of_int 120) (lit 5 100)
      (of_int 8) 5 (lit 8 100) = Ok s
    /\ map year (debt_schedule s) = py_range 1 (5 + 1)
    /\ Forall (fun rec =>
                 principal_payment rec = of_int 1000 * lit 6 10 / of_int 5)
         (debt_schedule s).
Proof.
  eexists. split; [vm_compute; reflexivity|].
  apply (lbo_schedule_years_and_payments (of_int 1000) (lit 6 10)
           (of_int 120) (lit 5 100) (of_int 8) 5 (lit 8 100)).
  vm_compute. reflexivity.
Defined.

(** X16.  A negative horizon is not rejected.  Whenever the model reaches
    the root finder with [years < 0], the loop has not run: the schedule is
    empty, the debt outstanding is the initial debt, the exit equity value
    is the exit enterprise value less the whole initial debt (when that is
    positive), and the vector has the two elements [-equity_investment] and
    the exit equity value. *)
Theorem lbo_negative_years
    (purchase_price debt_ratio initial_ebitda ebitda_growth_rate
     exit_multiple : Qc) (years : Z) (interest_rate : Qc) (s : lbo_state) :
  (years < 0)%Z ->
  lbo_before_irr purchase_price debt_ratio initial_ebitda
    ebitda_growth_rate exit_multiple years interest_rate = Ok s ->
  debt_schedule s = []
  /\ outstanding_debt s = purchase_price * debt_ratio
  /\ exit_equity_value s
     = exit_enterprise_value s - py_max (purchase_price * debt_ratio) 0
  /\ equity_cash_flows s
     = [- (purchase_price * (1 - debt_ratio)); exit_equity_value s].
Proof.
  intros Hy. unfold lbo_before_irr, py_div.
  destruct (decide (of_int years = 0)) as [?|_]; [discriminate|].
  cbn [bind]. destruct (py_pow _ _) as [growth|e]; [|discriminate].
  cbn [bind]. unfold py_range, py_repeat.
  replace (Z.to_nat (years + 1 - 1)) with 0%nat by lia.
  replace (Z.to_nat (years - 1)) with 0%nat by lia.
  intros Hs. inversion Hs; subst s; clear Hs.
  cbn [seq map foldl fst snd debt_schedule outstanding_debt
       exit_equity_value exit_enterprise_value equity_cash_flows replicate
       app].
  repeat split.
Qed.

Lemma lbo_negative_years_witness :
  exists s : lbo_state,
    lbo_before_irr (of_int 1000) (lit 6 10) (of_int 120) (lit 5 100)
      (of_int 8) (-3) (lit 8 100) = Ok s
    /\ debt_schedule s = []
    /\ outstanding_debt s = of_int 1000 * lit 6 10
    /\ exit_equity_value s
       = exit_enterprise_value s - py_max (of_int 1000 * lit 6 10) 0
    /\ equity_cash_flows s
       = [- (of_int 1000 * (1 - lit 6 10)); exit_equity_value s].
Proof.
  eexists. split; [vm_compute; reflexivity|].
  apply (lbo_negative_years (of_int 1000) (lit 6 10) (of_int 120)
           (lit 5 100) (of_int 8) (-3) (lit 8 100)).
  - lia.
  - vm_compute. reflexivity.
Defined.

(** ** The spreadsheet export *)

Section ExportLayout.

Variable dirname : string -> string.

Lemma enumerate_from_cons {A : Type} (a : Z) (x : A) (l : list A) :
  enumerate_from a (x :: l) = (a, x) :: enumerate_from (a + 1) l.
Proof.
  unfold enumerate_from. cbn [length seq map combine].
  f_equal; [f_equal; lia|]. f_equal.
  rewrite <- seq_shift, map_map. apply map_ext. intros k. lia.
Qed.

Lemma enumerate_from_In {A : Type} (l : list A) (a i : Z) (x : A) :
  In (i, x) (enumerate_from a l)
  <-> exists k : nat, l !! k = Some x /\ i = (a + Z.of_nat k)%Z.
Proof.
  revert a. induction l as [|y l IH]; intros a.
  - split; [intros [] | intros (k & Hk & _); rewrite lookup_nil in Hk;
                        discriminate].
  - rewrite enumerate_from_cons. cbn [In]. rewrite IH. split.
    + intros [Heq|(k & Hk & ->)].
      * inversion Heq; subst. exists 0%nat. split; [reflexivity | lia].
      * exists (S k). split; [exact Hk | lia].
    + intros ([|k] & Hk & ->).
      * left. inversion Hk; subst. f_equal. lia.
      * right. exists k. split; [exact Hk | lia].
Qed.

(** The two writes of one turn of the loop. *)
Let row_writes (p : Z * Qc) : list (Z * Z * cell_value) :=
  [ (p.1, 0%Z, Integer p.1); (p.1, 1%Z, Number p.2) ].

Lemma rowcol_writes_loop (ps : list (Z * Qc)) (tl : list event) :
  rowcol_writes
    (flat_map (fun '(i, fcf) =>
                 [ Write (RowCol i 0) (Integer i);
                   Write (RowCol i 1) (Number fcf) ]) ps ++ tl)
  = flat_map row_writes ps ++ rowcol_writes tl.
Proof.
  induction ps as [|[i fcf] ps IH]; [reflexivity|].
  cbn [flat_map app]. unfold rowcol_writes in *.
  cbn [omap list_omap app]. rewrite IH. reflexivity.
Qed.

(** The cells [export_dcf_results] addresses by row and column. *)
Lemma rowcol_writes_export (filename : string) (fcfs : list Qc) (tv ev : Qc) :
  rowcol_writes (export_dcf_results dirname filename fcfs tv ev)
  = flat_map row_writes (enumerate_from 1 fcfs)
    ++ (let start_row := (Z.of_nat (length fcfs) + 2)%Z in
        [ (start_row, 0%Z, Text "Terminal Value");
          (start_row, 1%Z, Number tv);
          ((start_row + 1)%Z, 0%Z, Text "DCF Enterprise Value");
          ((start_row + 1)%Z, 1%Z, Number ev) ]).
Proof.
  unfold export_dcf_results.
  change (rowcol_writes ([?a; ?b; ?c; ?d; ?e] ++ ?l)) with (rowcol_writes l).
  rewrite rowcol_writes_loop. reflexivity.
Qed.

(** The writes of the loop stay in the rows [a .. a + len - 1], two to a
    row, and no cell is written twice. *)
Lemma loop_cells (l : list Qc) (a : Z) :
  let ws := flat_map row_writes (enumerate_from a l) in
  Forall (fun w => (a <= w.1.1 < a + Z.of_nat (length l))%Z) ws
  /\ NoDup (map fst ws)
  /\ length ws = (2 * length l)%nat.
Proof.
  revert a. induction l as [|x l IH]; intros a; cbv zeta.
  - repeat split; constructor.
  - rewrite enumerate_from_cons. cbn [flat_map row_writes app fst snd map].
    destruct (IH (a + 1)%Z) as (Hrows & Hnd & Hlen). cbv zeta in *.
    assert (forall c : Z,
              (a, c) ∉ map fst (flat_map row_writes (enumerate_from (a + 1) l)))
      as Hfresh.
    { intros c Hin. apply list_elem_of_In, in_map_iff in Hin.
      destruct Hin as (w & Hw & Hin). rewrite List.Forall_forall in Hrows.
      specialize (Hrows w Hin). destruct w as [[r c'] v]. simpl in *.
      inversion Hw; subst. lia. }
    split; [|split].
    + repeat constructor; cbn [fst length]; try lia.
      eapply Forall_impl; [exact Hrows|]. intros w Hw. cbv beta in Hw.
      cbn [length]. lia.
    + constructor.
      * intros Hin. apply elem_of_cons in Hin as [Heq|Hin];
          [discriminate | exact (Hfresh _ Hin)].
      * constructor; [apply Hfresh | exact Hnd].
    + cbn [length]. lia.
Qed.

End ExportLayout.

(** Which cells receive which value. *)
Lemma rowcol_writes_export_iff
    (dirname : string -> string) (filename : string) (fcfs : list Qc)
    (tv ev : Qc) (r c : Z) (v : cell_value) :
  let n := Z.of_nat (length fcfs) in
  (r, c, v) ∈ rowcol_writes (export_dcf_results dirname filename fcfs tv ev)
  <-> (exists (k : nat) (fcf : Qc),
         fcfs !! k = Some fcf /\ r = (1 + Z.of_nat k)%Z
         /\ ((c = 0%Z /\ v = Integer r) \/ (c = 1%Z /\ v = Number fcf)))
      \/ (r = (n + 2)%Z /\ c = 0%Z /\ v = Text "Terminal Value")
      \/ (r = (n + 2)%Z /\ c = 1%Z /\ v = Number tv)
      \/ (r = (n + 3)%Z /\ c = 0%Z /\ v = Text "DCF Enterprise Value")
      \/ (r = (n + 3)%Z /\ c = 1%Z /\ v = Number ev).
Proof.
  cbv zeta. rewrite rowcol_writes_export. cbv zeta.
  rewrite list_elem_of_In, in_app_iff, in_flat_map. cbn [In].
  replace (Z.of_nat (length fcfs) + 2 + 1)%Z
    with (Z.of_nat (length fcfs) + 3)%Z by lia.
  split.
  - intros [([i fcf] & Hin & Hw)|Htail].
    + left. apply enumerate_from_In in Hin. destruct Hin as (k & Hk & ->).
      exists k, fcf. split; [exact Hk|].
      cbn [In fst snd] in Hw.
      destruct Hw as [Hw|[Hw|[]]]; inversion Hw; subst; auto.
    + right.
      destruct Htail as [H|[H|[H|[H|[]]]]]; inversion H; subst; tauto.
  - intros [(k & fcf & Hk & -> & Hc)|Htail].
    + left. exists ((1 + Z.of_nat k)%Z, fcf). split.
      * apply enumerate_from_In. eauto.
      * cbn [In fst snd].
        destruct Hc as [[-> ->]|[-> ->]]; auto.
    + right.
      destruct Htail as [(-> & -> & ->)|[(-> & -> & ->)|[(-> & -> & ->)
                          |(-> & -> & ->)]]]; auto.
Qed.

(** X18.  The layout of the sheet below the header: a cell addressed by
    row and column receives a value exactly in these cases: row [i] (from
    1) holds the year number [i] in column 0 and the [i]-th projected FCF in
    column 1; the row after one blank row holds the label and the terminal
    value; the next row holds the label and the enterprise value. *)
Theorem export_dcf_results_layout
    (dirname : string -> string) (filename : string) (fcfs : list Qc)
    (tv ev : Qc) (r c : Z) (v : cell_value) :
  let n := Z.of_nat (length fcfs) in
  (r, c, v) ∈ rowcol_writes (export_dcf_results dirname filename fcfs tv ev)
  <-> (exists (k : nat) (fcf : Qc),
         fcfs !! k = Some fcf /\ r = (1 + Z.of_nat k)%Z
         /\ ((c = 0%Z /\ v = Integer r) \/ (c = 1%Z /\ v = Number fcf)))
      \/ (r = (n + 2)%Z /\ c = 0%Z /\ v = Text "Terminal Value")
      \/ (r = (n + 2)%Z /\ c = 1%Z /\ v = Number tv)
      \/ (r = (n + 3)%Z /\ c = 0%Z /\ v = Text "DCF Enterprise Value")
      \/ (r = (n + 3)%Z /\ c = 1%Z /\ v = Number ev).
Proof. apply rowcol_writes_export_iff. Qed.

(** X19.  [export_dcf_results] writes no cell twice, all its row and
    column writes fall below the header row, and there are [2 n + 4] of
    them for [n] projected years. *)
Theorem export_dcf_results_no_overwrite
    (dirname : string -> string) (filename : string) (fcfs : list Qc)
    (tv ev : Qc) :
  let ws := rowcol_writes (export_dcf_results dirname filename fcfs tv ev) in
  NoDup (map fst ws)
  /\ Forall (fun w => (1 <= w.1.1)%Z) ws
  /\ length ws = (2 * length fcfs + 4)%nat.
Proof.
  cbv zeta. rewrite rowcol_writes_export. cbv zeta.
  destruct (loop_cells fcfs 1) as (Hrows & Hnd & Hlen). cbv zeta in *.
  split; [|split].
  - rewrite map_app. apply NoDup_app. split; [exact Hnd|]. split.
    + intros rc Hin Htail. apply list_elem_of_In, in_map_iff in Hin.
      destruct Hin as (w & <- & Hin). rewrite List.Forall_forall in Hrows.
      specialize (Hrows w Hin). cbn [map fst] in Htail.
      destruct w as [[r c] v]. cbn [fst] in *.
      repeat (apply elem_of_cons in Htail as [Heq|Htail];
              [inversion Heq; lia|]).
      inversion Htail.
    + cbn [map fst]. repeat constructor;
        rewrite ?elem_of_cons, ?elem_of_nil;
        intros H; repeat destruct H as [H|H]; try inversion H; lia.
  - apply Forall_app. split.
    + eapply Forall_impl; [exact Hrows|]. intros w Hw. cbv beta in Hw. lia.
    + repeat constructor; cbn [fst]; lia.
  - rewrite length_app, Hlen. cbn [length]. lia.
Qed.



